(** * strategies.py: example strategies and the CO456 line protocol adapter

    A shallow embedding of [strategies.py] of lichess-bot.

    - Python exceptions are values of [Exn]; a call that may raise returns
      [Res A].
    - The chess rules library (python-chess) is an interface: the type of
      moves, [chess.Move.from_uci] and [Move.uci] are variables of the
      sections below; a board carries the three things the file reads from
      it ([legal_moves], [move_stack], [san]).
    - The child process is seen through what the adapter writes to it (the
      [sent] log of [send_line]) and the lines it writes back (a list of
      replies handed to the command in order).
    - [logging.info] calls are not modelled. *)

From stdpp Require Import base strings list gmap.
From Stdlib Require Import ZArith Ascii.

(** ** Exceptions and results *)

Inductive Exn : Type :=
| NotImplementedError (msg : string)
| IndexError (msg : string)
| StopIteration
| ValueError
| TypeError
| InvalidStateError
| EngineError (msg : string).

Inductive Res (A : Type) : Type :=
| Ok (a : A)
| Raise (e : Exn).
Arguments Ok {A} a.
Arguments Raise {A} e.

(** ** Python built-ins the strategies use *)

Module Py.

(** [l[0]] *)
Definition index0 {A} (l : list A) : Res A :=
  match l with
  | [] => Raise (IndexError "list index out of range")
  | x :: _ => Ok x
  end.

(** [next(iter(l))] *)
Definition next_iter {A} (l : list A) : Res A :=
  match l with
  | [] => Raise StopIteration
  | x :: _ => Ok x
  end.

(** [random.choice(l)]; [r] is the number the generator draws, reduced
    below [len(l)]. *)
Definition random_choice {A} (r : nat) (l : list A) : Res A :=
  match l with
  | [] => Raise (IndexError "Cannot choose from an empty sequence")
  | x :: _ => Ok (nth (r mod length l) l x)
  end.

(** [l.sort(key=key)] with string keys.  [list.sort] is stable: elements
    with equal keys keep their order.  The stable result is unique, and is
    computed here by insertion from the right. *)
Fixpoint insert_key {A} (key : A → string) (x : A) (l : list A) : list A :=
  match l with
  | [] => [x]
  | y :: l' =>
      if String.leb (key x) (key y) then x :: y :: l'
      else y :: insert_key key x l'
  end.

Fixpoint sort_key {A} (key : A → string) (l : list A) : list A :=
  match l with
  | [] => []
  | x :: l' => insert_key key x (sort_key key l')
  end.

(** [l[-1]] on a non-empty list is [last l]. *)
Definition last_item {A} (l : list A) : option A := last l.

(** truth value of a string and of a list *)
Definition truthy_str (s : string) : bool :=
  match s with EmptyString => false | String _ _ => true end.

Definition truthy_list {A} (l : list A) : bool :=
  match l with [] => false | _ :: _ => true end.

End Py.

(** ** Boards and play results *)

Section Chess.

Context {Move : Type}.

(** [chess.Board], as far as this file reads it.  [san] is [board.san],
    the standard algebraic notation of a move in this position. *)
Record Board : Type := mkBoard {
  legal_moves : list Move;
  move_stack : list Move;
  san : Move → string
}.

(** [chess.engine.PlayResult(move, ponder, *, draw_offered=False,
    resigned=False)]; its [info] is never given here and is left out. *)
Record PlayResult : Type := mkPlayResult {
  pr_move : option Move;
  pr_ponder : option Move;
  pr_draw_offered : bool;
  pr_resigned : bool
}.

(** [PlayResult(m, None)] *)
Definition play_move (m : Move) : PlayResult :=
  mkPlayResult (Some m) None false false.

(** [PlayResult(m, None, resigned=True)] *)
Definition play_resign (m : Move) : PlayResult :=
  mkPlayResult (Some m) None false true.

End Chess.

Arguments Board : clear implicits.
Arguments PlayResult : clear implicits.

(** ** The example strategies *)

Section Strategies.

Context {Move Limit : Type}.

(** [str(move)], which is [move.uci()] *)
Variable uci : Move → string.

(** [MinimalEngine.search] *)
Definition MinimalEngine_search (board : Board Move) (time_limit : Limit)
    (ponder draw_offered : bool) : Res (PlayResult Move) :=
  Raise (NotImplementedError "The search method is not implemented").

(** [RandomMove.search]; [r] is the generator's draw. *)
Definition RandomMove_search (r : nat) (board : Board Move)
    : Res (PlayResult Move) :=
  match Py.random_choice r (legal_moves board) with
  | Ok m => Ok (play_move m)
  | Raise e => Raise e
  end.

(** [Alphabetical.search] *)
Definition Alphabetical_search (board : Board Move)
    : Res (PlayResult Move) :=
  let moves := legal_moves board in
  let moves := Py.sort_key (san board) moves in
  match Py.index0 moves with
  | Ok m => Ok (play_move m)
  | Raise e => Raise e
  end.

(** [FirstMove.search] *)
Definition FirstMove_search (board : Board Move)
    : Res (PlayResult Move) :=
  let moves := legal_moves board in
  let moves := Py.sort_key uci moves in
  match Py.index0 moves with
  | Ok m => Ok (play_move m)
  | Raise e => Raise e
  end.

(** The classes of the file that have a [search] method, and the method
    each one runs: [ExampleEngine] inherits [MinimalEngine]'s, the three
    strategies override it and ignore [*args]. *)
Inductive EngineClass : Type :=
| MinimalEngine | ExampleEngine | RandomMove | Alphabetical | FirstMove.

Definition search (cls : EngineClass) (r : nat) (board : Board Move)
    (time_limit : Limit) (ponder draw_offered : bool)
    : Res (PlayResult Move) :=
  match cls with
  | MinimalEngine | ExampleEngine =>
      MinimalEngine_search board time_limit ponder draw_offered
  | RandomMove => RandomMove_search r board
  | Alphabetical => Alphabetical_search board
  | FirstMove => FirstMove_search board
  end.

End Strategies.

(** ** chess.engine: engine and command state

    [CO456Protocol] extends [chess.engine.Protocol].  Of the protocol object
    the commands read and write [initialized] (set to [False] by the base
    constructor) and [first_move]; [sent] logs the lines passed to
    [send_line], oldest first. *)

Record Engine : Type := mkEngine {
  initialized : bool;
  first_move : string;
  sent : list string
}.

(** The engine after one more line was written to the child. *)
Definition write_line (e : Engine) (line : string) : Engine :=
  mkEngine (initialized e) (first_move e) (sent e ++ [line]).

(** [CO456Protocol.__init__] *)
Definition CO456Protocol_init : Engine := mkEngine false "" [].

(** A command object: [self.result] is a future, unset ([None]) or holding a
    value or an exception; [finished] is set by [set_finished]. *)
Record Command (R : Type) : Type := mkCommand {
  result : option (Res R);
  finished : bool
}.
Arguments mkCommand {R} result finished.
Arguments result {R} _.
Arguments finished {R} _.

Definition new_command {R} : Command R := mkCommand None false.

(** A method of a command runs on the engine and the command; what it wrote
    before raising stays written. *)
Definition Hook (R A : Type) : Type :=
  Engine * Command R → Res A * (Engine * Command R).

Module HookM.

Definition ret {R A} (a : A) : Hook R A := λ st, (Ok a, st).

Definition raise {R A} (e : Exn) : Hook R A := λ st, (Raise e, st).

Definition bind {R A B} (h : Hook R A) (k : A → Hook R B) : Hook R B :=
  λ st, match h st with
        | (Ok a, st') => k a st'
        | (Raise e, st') => (Raise e, st')
        end.

Definition get_engine {R} : Hook R Engine := λ st, (Ok st.1, st).

(** [engine.send_line(line)] *)
Definition send_line {R} (line : string) : Hook R unit :=
  λ '(e, c), (Ok (), (write_line e line, c)).

(** [engine.first_move = s] *)
Definition set_first_move {R} (s : string) : Hook R unit :=
  λ '(e, c), (Ok (), (mkEngine (initialized e) s (sent e), c)).

(** [engine.initialized = b] *)
Definition set_initialized {R} (b : bool) : Hook R unit :=
  λ '(e, c), (Ok (), (mkEngine b (first_move e) (sent e), c)).

(** [self.result.set_result(v)]: a future takes a result once. *)
Definition set_result {R} (v : R) : Hook R unit :=
  λ '(e, c),
    match result c with
    | None => (Ok (), (e, mkCommand (Some (Ok v)) (finished c)))
    | Some _ => (Raise InvalidStateError, (e, c))
    end.

(** [self.set_finished()]: a command that finishes with its result unset
    gets an [EngineError] as result. *)
Definition set_finished {R} : Hook R unit :=
  λ '(e, c),
    let r := match result c with
             | None => Some (Raise (EngineError "engine command finished before returning result"))
             | Some r => Some r
             end in
    (Ok (), (e, mkCommand r true)).

End HookM.

Declare Scope hook_scope.
Notation "c1 >> c2" := (HookM.bind c1 (λ _, c2))
  (at level 61, left associativity) : hook_scope.
Delimit Scope hook_scope with hook.
Bind Scope hook_scope with Hook.

(** The three methods of a [chess.engine.BaseCommand] subclass that the
    protocol calls. *)
Record CommandClass (R : Type) : Type := mkCommandClass {
  check_initialized : Hook R unit;
  start : Hook R unit;
  line_received : string → Hook R unit
}.
Arguments mkCommandClass {R}.
Arguments check_initialized {R} _.
Arguments start {R} _.
Arguments line_received {R} _.

(** [BaseCommand.check_initialized], inherited by a subclass that does not
    override it. *)
Definition BaseCommand_check_initialized {R} : Hook R unit :=
  HookM.bind HookM.get_engine (λ engine,
    if initialized engine then HookM.ret ()
    else HookM.raise (EngineError "tried to run command, but engine is not initialized")).

(** [BaseCommand.line_received], inherited likewise: [pass]. *)
Definition BaseCommand_line_received {R} (line : string) : Hook R unit :=
  HookM.ret ().

(** [BaseCommand._handle_exception]: an [EngineError] raised by a method
    becomes the command's result, and the command is finished. *)
Definition handle_exception {R} (err : Exn) : Hook R unit :=
  λ '(e, c),
    let r := match result c with None => Some (Raise err) | Some r => Some r end in
    (Ok (), (e, mkCommand r true)).

Definition catch_EngineError {R} (h : Hook R unit) : Hook R unit :=
  λ st, match h st with
        | (Raise (EngineError msg), st') => handle_exception (EngineError msg) st'
        | other => other
        end.

(** [BaseCommand._start] and [BaseCommand._line_received] *)
Definition command_start {R} (cls : CommandClass R) : Hook R unit :=
  catch_EngineError (check_initialized cls >> start cls)%hook.

Definition command_line_received {R} (cls : CommandClass R) (line : string)
    : Hook R unit :=
  catch_EngineError (line_received cls line).

(** What the caller of [communicate] gets: a value, an exception, or
    nothing yet (it is still waiting for [command.result]). *)
Inductive Outcome (R : Type) : Type :=
| Returned (r : R)
| Raised (e : Exn)
| Pending.
Arguments Returned {R} r.
Arguments Raised {R} e.
Arguments Pending {R}.

Definition outcome_of {R} (c : Command R) : Outcome R :=
  match result c with
  | Some (Ok v) => Returned v
  | Some (Raise e) => Raised e
  | None => Pending
  end.

(** One exchange: the engine afterwards, what the caller got, the replies
    that were not read, and the exceptions that left [line_received]
    uncaught (the command stays active after one, its result unset). *)
Record Exchange (R : Type) : Type := mkExchange {
  outcome : Outcome R;
  engine_after : Engine;
  unread : list string;
  escaped : list Exn
}.
Arguments mkExchange {R}.
Arguments outcome {R} _.
Arguments engine_after {R} _.
Arguments unread {R} _.
Arguments escaped {R} _.

(** The active command is handed the child's lines one by one until it is
    finished. *)
Fixpoint feed {R} (cls : CommandClass R) (st : Engine * Command R)
    (lines : list string) (esc : list Exn) : Exchange R :=
  if finished st.2 then mkExchange (outcome_of st.2) st.1 lines esc
  else
    match lines with
    | [] => mkExchange (outcome_of st.2) st.1 [] esc
    | line :: rest =>
        match command_line_received cls line st with
        | (Ok _, st') => feed cls st' rest esc
        | (Raise e, st') => feed cls st' rest (esc ++ [e])
        end
    end.

(** [Protocol.communicate(command_factory)] on an idle protocol: a new
    command is started; an exception that [_start] does not catch reaches
    the caller; otherwise the caller waits for the result while the child's
    [replies] arrive.

    One call is one exchange.  The protocol's slot for the active command,
    the exit of the child and cancellation by the caller are not part of
    the model, so nothing is said here about the calls that follow one
    whose [start] raised, nor about an exchange that the library ends for
    the command. *)
Definition communicate {R} (cls : CommandClass R) (engine : Engine)
    (replies : list string) : Exchange R :=
  match command_start cls (engine, new_command) with
  | (Raise e, st) => mkExchange (Raised e) st.1 replies []
  | (Ok _, st) => feed cls st replies []
  end.

(** ** CO456Protocol *)

(** A value of a [ConfigMapping]: [str], [int], [bool] or [None]. *)
Inductive ConfigValue : Type :=
| CStr (s : string)
| CInt (z : Z)
| CBool (b : bool)
| CNone.

Global Instance ConfigValue_eq_dec : EqDecision ConfigValue.
Proof. solve_decision. Defined.

(** [engine.send_line(v)] for a mapping value: the line is built as
    [v + "\n"], which is a [TypeError] unless [v] is a string. *)
Definition send_line_value {R} (v : ConfigValue) : Hook R unit :=
  match v with
  | CStr s => HookM.send_line s
  | _ => HookM.raise TypeError
  end.

Section CO456.

Context {Move : Type}.

(** [chess.Move.from_uci]: [None] when it raises [InvalidMoveError], a
    [ValueError]. *)
Variable from_uci : string → option Move.

(** [Move.uci] *)
Variable uci : Move → string.

Definition Move_from_uci (s : string) : Res Move :=
  match from_uci s with
  | Some m => Ok m
  | None => Raise ValueError
  end.

(** *** [initialize] *)

Definition InitializeCommand_check_initialized : Hook unit unit :=
  HookM.bind HookM.get_engine (λ engine,
    if initialized engine
    then HookM.raise (EngineError "engine already initialized")
    else HookM.ret ()).

Definition InitializeCommand_start : Hook unit unit :=
  (HookM.set_initialized true >>
   HookM.set_result () >>
   HookM.set_finished)%hook.

Definition InitializeCommand : CommandClass unit :=
  mkCommandClass InitializeCommand_check_initialized
                 InitializeCommand_start
                 BaseCommand_line_received.

Definition initialize (engine : Engine) (replies : list string)
    : Exchange unit :=
  communicate InitializeCommand engine replies.

(** *** [configure] *)

Definition ConfigureCommand_start (options : gmap string ConfigValue)
    : Hook unit unit :=
  match options !! "color" with
  | Some color =>
      (send_line_value color >>
       if decide (color = CStr "black")
       then HookM.set_result () >> HookM.set_finished
       else HookM.ret ())%hook
  | None => HookM.ret ()
  end.

Definition ConfigureCommand_line_received (line : string)
    : Hook unit unit :=
  (HookM.set_first_move line >>
   HookM.set_result () >>
   HookM.set_finished)%hook.

Definition ConfigureCommand (options : gmap string ConfigValue)
    : CommandClass unit :=
  mkCommandClass BaseCommand_check_initialized
                 (ConfigureCommand_start options)
                 ConfigureCommand_line_received.

Definition configure (options : gmap string ConfigValue)
    (engine : Engine) (replies : list string) : Exchange unit :=
  communicate (ConfigureCommand options) engine replies.

(** *** [play] *)

Definition PlayCommand_start (board : Board Move)
    : Hook (PlayResult Move) unit :=
  HookM.bind HookM.get_engine (λ engine,
    if Py.truthy_str (first_move engine) then
      match Move_from_uci (first_move engine) with
      | Ok m =>
          (HookM.set_result (play_move m) >>
           HookM.set_first_move "" >>
           HookM.set_finished)%hook
      | Raise e => HookM.raise e
      end
    else if Py.truthy_list (move_stack board) then
      match Py.last_item (move_stack board) with
      | Some m => HookM.send_line (uci m)
      | None => HookM.ret ()
      end
    else HookM.ret ()).

Definition PlayCommand_line_received (board : Board Move) (line : string)
    : Hook (PlayResult Move) unit :=
  ((if decide (line = "invalid") then
      match Py.next_iter (legal_moves board) with
      | Ok m => HookM.set_result (play_resign m)
      | Raise e => HookM.raise e
      end
    else
      match Move_from_uci line with
      | Ok m => HookM.set_result (play_move m)
      | Raise e => HookM.raise e
      end) >>
   HookM.set_finished)%hook.

Definition PlayCommand (board : Board Move)
    : CommandClass (PlayResult Move) :=
  mkCommandClass BaseCommand_check_initialized
                 (PlayCommand_start board)
                 (PlayCommand_line_received board).

Definition play (board : Board Move) (engine : Engine)
    (replies : list string) : Exchange (PlayResult Move) :=
  communicate (PlayCommand board) engine replies.

End CO456.

(** ** FillerEngine *)

Section Filler.

(** [E]: the main engine object; [Arg]: a Python value passed as
    argument; [Ret]: what a call of [notify] amounts to (its value and
    its effects); [ClassAttr]: an attribute found on the class
    [FillerEngine] or on [object]. *)
Context {E Arg Ret ClassAttr : Type}.

(** [main_engine.notify(method_name, *args, **kwargs)] *)
Variable notify : E → string → list Arg → list (string * Arg) → Ret.

(** Lookup on the class: [__init__], [__getattr__], [__class__], ... *)
Variable class_attr : string → option ClassAttr.
Variable call_class_attr :
  ClassAttr → list Arg → list (string * Arg) → Res Ret.

(** The values [__init__] stores on the instance. *)
Inductive InstanceValue : Type :=
| VDict (d : gmap string (option string))
| VOptStr (s : option string)
| VEngine (e : E).

Record FillerEngine : Type := mkFillerEngine {
  instance_dict : gmap string InstanceValue;
  main_engine : E
}.

(** [FillerEngine.__init__(self, main_engine, name=None)], for a [name]
    that is a string or [None]. *)
Definition FillerEngine_init (main_engine : E) (name : option string)
    : FillerEngine :=
  mkFillerEngine
    (<["main_engine" := VEngine main_engine]>
       (<["name" := VOptStr name]>
          (<["id" := VDict {["name" := name]}]> ∅)))
    main_engine.

(** What an attribute access gives: a stored value, something of the
    class, or the inner function [method] of [__getattr__] with the two
    variables it closes over. *)
Inductive AttrValue : Type :=
| Stored (v : InstanceValue)
| OfClass (c : ClassAttr)
| Method (main_engine : E) (method_name : string).

(** [FillerEngine.__getattr__] *)
Definition FillerEngine_getattr (self : FillerEngine)
    (method_name : string) : AttrValue :=
  let main_engine := main_engine self in
  Method main_engine method_name.

(** [self.<attr>]: Python calls [__getattr__] only when the normal lookup
    (instance, then class) finds nothing. *)
Definition getattr (self : FillerEngine) (attr : string) : AttrValue :=
  match instance_dict self !! attr with
  | Some v => Stored v
  | None =>
      match class_attr attr with
      | Some c => OfClass c
      | None => FillerEngine_getattr self attr
      end
  end.

(** Calling the value of an attribute with positional and keyword
    arguments. *)
Definition call (a : AttrValue) (args : list Arg)
    (kwargs : list (string * Arg)) : Res Ret :=
  match a with
  | Method main_engine method_name =>
      Ok (notify main_engine method_name args kwargs)
  | OfClass c => call_class_attr c args kwargs
  | Stored _ => Raise TypeError
  end.

(** Delegation, as the design notes put it: the call goes to
    [main_engine.notify] with the attribute name and the arguments. *)
Definition delegate (self : FillerEngine) (attr : string)
    (args : list Arg) (kwargs : list (string * Arg)) : Res Ret :=
  Ok (notify (main_engine self) attr args kwargs).

End Filler.

Arguments InstanceValue : clear implicits.
Arguments FillerEngine : clear implicits.
Arguments AttrValue : clear implicits.

(** [MinimalEngine.notify]: [pass]; nothing happens and [None] is
    returned. *)
Definition MinimalEngine_notify {E Arg : Type} (self : E)
    (method_name : string) (args : list Arg) (kwargs : list (string * Arg))
    : unit := ().

(** ** CO456Engine

    The wrapper drives the protocol through [chess.engine.SimpleEngine],
    whose calls wait for the result of the protocol's method of the same
    name; its timeouts are not modelled. *)

Section CO456Engine.

Context {Move Limit : Type}.
Variable from_uci : string → option Move.
Variable uci : Move → string.

(** [CO456Engine.__init__]: [SimpleEngine.popen] starts the child, builds
    the [CO456Protocol] and runs its [initialize]. *)
Definition CO456Engine_init (replies : list string) : Exchange unit :=
  initialize CO456Protocol_init replies.

(** [CO456Engine.get_opponent_info]; [is_white] is [game.is_white]. *)
Definition get_opponent_info (is_white : bool) (engine : Engine)
    (replies : list string) : Exchange unit :=
  let msg := if is_white then "white" else "black" in
  configure {["color" := CStr msg]} engine replies.

(** [CO456Engine.search] *)
Definition CO456Engine_search (board : Board Move) (time_limit : Limit)
    (ponder draw_offered : bool) (engine : Engine) (replies : list string)
    : Exchange (PlayResult Move) :=
  let result := play from_uci uci board engine replies in
  result.

End CO456Engine.

(** ** A concrete chess.Move

    Moves as python-chess has them (squares 0..63, a promotion or drop piece
    1..6), with [Move.from_uci] and [Move.uci], to run the model on. *)

Module Sample.

Record Move : Type := mkMove {
  from_square : nat;
  to_square : nat;
  promotion : option nat;
  drop : option nat
}.

Definition file_index (c : Ascii.ascii) : option nat :=
  match c with
  | "a" => Some 0 | "b" => Some 1 | "c" => Some 2 | "d" => Some 3
  | "e" => Some 4 | "f" => Some 5 | "g" => Some 6 | "h" => Some 7
  | _ => None
  end%char.

Definition rank_index (c : Ascii.ascii) : option nat :=
  match c with
  | "1" => Some 0 | "2" => Some 1 | "3" => Some 2 | "4" => Some 3
  | "5" => Some 4 | "6" => Some 5 | "7" => Some 6 | "8" => Some 7
  | _ => None
  end%char.

(** [SQUARE_NAMES.index] *)
Definition square_index (f r : Ascii.ascii) : option nat :=
  match file_index f, rank_index r with
  | Some x, Some y => Some (8 * y + x)
  | _, _ => None
  end.

(** [PIECE_SYMBOLS.index] *)
Definition piece_index (c : Ascii.ascii) : option nat :=
  match c with
  | "p" => Some 1 | "n" => Some 2 | "b" => Some 3
  | "r" => Some 4 | "q" => Some 5 | "k" => Some 6
  | _ => None
  end%char.

Definition lower (c : Ascii.ascii) : Ascii.ascii :=
  match c with
  | "P" => "p" | "N" => "n" | "B" => "b"
  | "R" => "r" | "Q" => "q" | "K" => "k"
  | _ => c
  end%char.

Definition from_uci (s : string) : option Move :=
  match s with
  | "0000" => Some (mkMove 0 0 None None)
  | String p (String "@" (String f (String r ""))) =>
      match piece_index (lower p), square_index f r with
      | Some d, Some sq => Some (mkMove sq sq None (Some d))
      | _, _ => None
      end
  | String a (String b (String c (String d rest))) =>
      match square_index a b, square_index c d with
      | Some x, Some y =>
          let promo :=
            match rest with
            | "" => Some None
            | String p "" => Some <$> piece_index p
            | _ => None
            end in
          match promo with
          | Some pr => if decide (x = y) then None else Some (mkMove x y pr None)
          | None => None
          end
      | _, _ => None
      end
  | _ => None
  end.

Definition file_name (x : nat) : string :=
  match x with
  | 0 => "a" | 1 => "b" | 2 => "c" | 3 => "d"
  | 4 => "e" | 5 => "f" | 6 => "g" | _ => "h"
  end.

Definition rank_name (y : nat) : string :=
  match y with
  | 0 => "1" | 1 => "2" | 2 => "3" | 3 => "4"
  | 4 => "5" | 5 => "6" | 6 => "7" | _ => "8"
  end.

Definition square_name (sq : nat) : string :=
  file_name (sq mod 8) +:+ rank_name (sq / 8).

Definition piece_symbol (p : nat) : string :=
  match p with
  | 1 => "p" | 2 => "n" | 3 => "b" | 4 => "r" | 5 => "q" | _ => "k"
  end.

Definition piece_symbol_upper (p : nat) : string :=
  match p with
  | 1 => "P" | 2 => "N" | 3 => "B" | 4 => "R" | 5 => "Q" | _ => "K"
  end.

Definition uci (m : Move) : string :=
  match drop m, promotion m with
  | Some d, _ => piece_symbol_upper d +:+ "@" +:+ square_name (to_square m)
  | None, Some p =>
      square_name (from_square m) +:+ square_name (to_square m) +:+ piece_symbol p
  | None, None =>
      if decide (from_square m = 0 ∧ to_square m = 0) then "0000"
      else square_name (from_square m) +:+ square_name (to_square m)
  end.

Global Instance Move_eq_dec : EqDecision Move.
Proof. solve_decision. Defined.

Definition e2e4 : Move := mkMove 12 28 None None.
Definition g1f3 : Move := mkMove 6 21 None None.
Definition a2a3 : Move := mkMove 8 16 None None.
Definition e7e5 : Move := mkMove 52 36 None None.

(** [board.san] on the moves above *)
Definition san_of (m : Move) : string :=
  if decide (m = e2e4) then "e4"
  else if decide (m = g1f3) then "Nf3"
  else if decide (m = a2a3) then "a3"
  else if decide (m = e7e5) then "e5"
  else uci m.

(** A position with three legal moves, one move played. *)
Definition board3 : Board Move :=
  mkBoard [e2e4; g1f3; a2a3] [e7e5] san_of.

(** A position without legal moves, one move played. *)
Definition board_over : Board Move :=
  mkBoard [] [e7e5] san_of.

(** The starting position: nothing played yet. *)
Definition board_start : Board Move :=
  mkBoard [e2e4; g1f3; a2a3] [] san_of.

(** An initialized engine with nothing stored and nothing written. *)
Definition ready : Engine := mkEngine true "" [].

(** An initialized engine holding a first move from [configure]. *)
Definition holding : Engine := mkEngine true "e2e4" ["white"].

(** A main engine that keeps [MinimalEngine.notify]; lookup on the class
    is left empty. *)
Definition no_class_attr (attr : string) : option Empty_set := None.

Definition call_no_class_attr (c : Empty_set) (args : list unit)
    (kwargs : list (string * unit)) : Res unit :=
  match c with end.

(** The legal moves of [board3] listed in another order. *)
Definition board3_reordered : Board Move :=
  mkBoard [a2a3; e2e4; g1f3] [e7e5] san_of.

(** An initialized engine whose stored first move is not a UCI move. *)
Definition stuck : Engine := mkEngine true "zz" ["white"].

(** The options [CO456Engine.get_opponent_info] passes when the bot has
    the white pieces. *)
Definition white : gmap string ConfigValue := {["color" := CStr "white"]}.

(** The options it passes when the bot has the black pieces. *)
Definition black : gmap string ConfigValue := {["color" := CStr "black"]}.

Definition filler : FillerEngine unit :=
  FillerEngine_init () (Some "homemade").

End Sample.

(** * Properties *)

(** ** Sorting by key *)

Section SortFacts.

Context {A : Type} (key : A → string).

Lemma length_insert_key x l :
  length (Py.insert_key key x l) = S (length l).
Proof.
  induction l as [|y l IH]; simpl; [done|].
  destruct (String.leb (key x) (key y)); simpl; by rewrite ?IH.
Qed.

Lemma length_sort_key l : length (Py.sort_key key l) = length l.
Proof.
  induction l as [|x l IH]; simpl; [done|].
  by rewrite length_insert_key, IH.
Qed.

Lemma insert_key_perm x l : Py.insert_key key x l ≡ₚ x :: l.
Proof.
  induction l as [|y l IH]; simpl; [done|].
  destruct (String.leb (key x) (key y)); [done|].
  rewrite IH. apply Permutation_swap.
Qed.

Lemma sort_key_perm l : Py.sort_key key l ≡ₚ l.
Proof.
  induction l as [|x l IH]; simpl; [done|].
  by rewrite insert_key_perm, IH.
Qed.

Lemma head_insert_key x l :
  head (Py.insert_key key x l) =
  match head l with
  | None => Some x
  | Some y => if String.leb (key x) (key y) then Some x else Some y
  end.
Proof.
  destruct l as [|y l]; simpl; [done|].
  by destruct (String.leb (key x) (key y)).
Qed.

Lemma leb_false_le (s t : string) : String.leb s t = false → String.le t s.
Proof.
  intros Hst. destruct (total String.le s t) as [H|H]; [|done].
  unfold String.le in H. rewrite Hst in H. done.
Qed.

(** The first element after a stable sort is the leftmost element whose
    key is minimal. *)
Lemma sort_key_head l m :
  head (Py.sort_key key l) = Some m →
  ∃ l1 l2, l = l1 ++ m :: l2
    ∧ (∀ x, x ∈ l1 → ¬ String.le (key x) (key m))
    ∧ (∀ x, x ∈ l2 → String.le (key m) (key x)).
Proof.
  revert m. induction l as [|a l IH]; intros m; simpl; [done|].
  rewrite head_insert_key.
  destruct (head (Py.sort_key key l)) as [y|] eqn:Hhd.
  - destruct (IH y eq_refl) as (l1 & l2 & -> & Hgt & Hge).
    destruct (String.leb (key a) (key y)) eqn:Hay; intros [= <-].
    + exists [], (l1 ++ y :: l2). split; [done|]. split.
      { intros x Hx. by apply elem_of_nil in Hx. }
      assert (String.le (key a) (key y)) as Hle.
      { unfold String.le. by rewrite Hay. }
      intros x [Hx|Hx]%elem_of_app.
      * destruct (total String.le (key a) (key x)) as [?|Hxa]; [done|].
        exfalso. apply (Hgt x Hx). by etrans.
      * apply elem_of_cons in Hx as [->|Hx]; [done|].
        etrans; [exact Hle|]. by apply Hge.
    + exists (a :: l1), l2. split; [done|]. split; [|done].
      intros x [->|Hx]%elem_of_cons; [|by apply Hgt].
      intros Hle. unfold String.le in Hle. by rewrite Hay in Hle.
  - intros [= <-]. destruct (Py.sort_key key l) as [|? ?] eqn:Hs; [|done].
    assert (length l = 0) as Hl by (by rewrite <- length_sort_key, Hs).
    destruct l; [|done].
    exists [], []. split; [done|].
    split; intros x Hx; by apply elem_of_nil in Hx.
Qed.

Lemma sort_key_nonempty l : l ≠ [] → ∃ m, head (Py.sort_key key l) = Some m.
Proof.
  intros Hl. destruct (Py.sort_key key l) as [|m s] eqn:Hs; [|by eexists].
  exfalso. apply Hl. apply nil_length_inv.
  by rewrite <- length_sort_key, Hs.
Qed.

Lemma index0_head (l : list A) :
  Py.index0 l = match head l with
                | Some x => Ok x
                | None => Raise (IndexError "list index out of range")
                end.
Proof. by destruct l. Qed.

End SortFacts.

(** ** The example strategies *)

Section StrategyFacts.

Context {Move : Type}.

Lemma search_sorted_first (key : Move → string) (l : list Move) :
  l ≠ [] →
  ∃ m, Py.index0 (Py.sort_key key l) = Ok m
    ∧ m ∈ l
    ∧ (∀ x, x ∈ l → String.le (key m) (key x))
    ∧ ∃ l1 l2, l = l1 ++ m :: l2 ∧ ∀ x, x ∈ l1 → key x ≠ key m.
Proof.
  intros Hl. destruct (sort_key_nonempty key l Hl) as [m Hm].
  exists m. rewrite index0_head, Hm. split; [done|].
  destruct (sort_key_head key l m Hm) as (l1 & l2 & -> & Hgt & Hge).
  split; [set_solver|]. split.
  - intros x [Hx|Hx]%elem_of_app.
    + destruct (total String.le (key m) (key x)) as [?|Hxm]; [done|].
      by destruct (Hgt x Hx).
    + apply elem_of_cons in Hx as [->|Hx]; [done|by apply Hge].
  - exists l1, l2. split; [done|]. intros x Hx Heq.
    apply (Hgt x Hx). by rewrite Heq.
Qed.

(** C3. On a board with at least one legal move, [Alphabetical.search]
    returns a [PlayResult] whose move is a legal move with the least
    standard algebraic notation in lexicographic order; no legal move
    listed before it has the same notation. *)
Theorem Alphabetical_search_first (board : Board Move) :
  legal_moves board ≠ [] →
  ∃ m, Alphabetical_search board = Ok (play_move m)
    ∧ m ∈ legal_moves board
    ∧ (∀ x, x ∈ legal_moves board →
         String.le (san board m) (san board x))
    ∧ ∃ l1 l2, legal_moves board = l1 ++ m :: l2
        ∧ ∀ x, x ∈ l1 → san board x ≠ san board m.
Proof.
  intros Hl.
  destruct (search_sorted_first (san board) _ Hl) as (m & Hm & Hrest).
  exists m. unfold Alphabetical_search. by rewrite Hm.
Qed.

(** C5. Whatever the board, the time limit, the ponder flag and the
    draw-offered flag, [MinimalEngine.search] raises
    [NotImplementedError] and returns no [PlayResult]; a class that
    inherits the method, as [ExampleEngine] does, behaves the same. *)
Theorem MinimalEngine_search_raises {Limit : Type} (uci : Move → string)
    (r : nat) (board : Board Move) (time_limit : Limit)
    (ponder draw_offered : bool) :
  MinimalEngine_search board time_limit ponder draw_offered
    = Raise (NotImplementedError "The search method is not implemented")
  ∧ (∀ res, MinimalEngine_search board time_limit ponder draw_offered ≠ Ok res)
  ∧ search uci MinimalEngine r board time_limit ponder draw_offered
    = Raise (NotImplementedError "The search method is not implemented")
  ∧ search uci ExampleEngine r board time_limit ponder draw_offered
    = Raise (NotImplementedError "The search method is not implemented").
Proof. by repeat split. Qed.

End StrategyFacts.

(** ** The command protocol *)

Section FeedFacts.

Context {R : Type} (cls : CommandClass R).

Lemma feed_finished st lines esc :
  finished st.2 = true →
  feed cls st lines esc = mkExchange (outcome_of st.2) st.1 lines esc.
Proof. intros H. destruct lines; simpl; by rewrite H. Qed.

Lemma feed_nil st esc :
  feed cls st [] esc = mkExchange (outcome_of st.2) st.1 [] esc.
Proof. simpl. by destruct (finished st.2). Qed.

Lemma feed_cons_ok st st' line rest esc u :
  finished st.2 = false →
  command_line_received cls line st = (Ok u, st') →
  feed cls st (line :: rest) esc = feed cls st' rest esc.
Proof. intros Hf Hl. simpl. by rewrite Hf, Hl. Qed.

Lemma feed_cons_raise st st' line rest esc ex :
  finished st.2 = false →
  command_line_received cls line st = (Raise ex, st') →
  feed cls st (line :: rest) esc = feed cls st' rest (esc ++ [ex]).
Proof. intros Hf Hl. simpl. by rewrite Hf, Hl. Qed.


(** A command whose [line_received] never writes to the child leaves
    the log of written lines as it was. *)
Lemma feed_sent lines :
  (∀ line st, sent (line_received cls line st).2.1 = sent st.1) →
  ∀ st esc, sent (engine_after (feed cls st lines esc)) = sent st.1.
Proof.
  intros Hquiet.
  assert (∀ line st, sent (command_line_received cls line st).2.1 = sent st.1)
    as Hquiet'.
  { intros line st. unfold command_line_received, catch_EngineError.
    specialize (Hquiet line st).
    destruct (line_received cls line st) as [[u|ex] [e c]]; [done|].
    destruct ex; done. }
  induction lines as [|line rest IH]; intros st esc; simpl.
  - by destruct (finished st.2).
  - destruct (finished st.2); simpl; [done|].
    specialize (Hquiet' line st).
    destruct (command_line_received cls line st) as [[u|ex] st'];
      by rewrite IH.
Qed.

End FeedFacts.

Section CommandFacts.

Context {R : Type} (cls : CommandClass R).

Lemma command_start_ok st st1 st2 :
  check_initialized cls st = (Ok (), st1) →
  start cls st1 = (Ok (), st2) →
  command_start cls st = (Ok (), st2).
Proof.
  intros Hc Hs. unfold command_start, catch_EngineError, HookM.bind.
  by rewrite Hc, Hs.
Qed.

Lemma command_line_received_ok line st st' :
  line_received cls line st = (Ok (), st') →
  command_line_received cls line st = (Ok (), st').
Proof.
  intros Hl. unfold command_line_received, catch_EngineError.
  by rewrite Hl.
Qed.

Lemma check_initialized_ready e (c : Command R) :
  initialized e = true →
  BaseCommand_check_initialized (e, c) = (Ok (), (e, c)).
Proof.
  intros Hi.
  unfold BaseCommand_check_initialized, HookM.bind, HookM.get_engine.
  simpl. by rewrite Hi.
Qed.

End CommandFacts.

Lemma truthy_list_snoc {A} (l : list A) (x : A) :
  Py.truthy_list (l ++ [x]) = true.
Proof. by destruct l. Qed.

Lemma last_item_snoc {A} (l : list A) (x : A) :
  Py.last_item (l ++ [x]) = Some x.
Proof. unfold Py.last_item. apply last_snoc. Qed.

Lemma truthy_str_nonempty (s : string) : s ≠ "" → Py.truthy_str s = true.
Proof. by destruct s. Qed.

(** ** CO456Protocol *)

Section CO456Facts.

Context {Move : Type}.
Variable from_uci : string → option Move.
Variable uci : Move → string.

Abbreviation play := (play from_uci uci).
Abbreviation PlayCommand := (PlayCommand from_uci uci).

(** *** [initialize] *)

(** C10. On an engine that is not yet initialized, as a new
    [CO456Protocol] is, [initialize] sets the flag, returns, and writes
    nothing to the child; on an initialized engine it raises
    [EngineError "engine already initialized"] and leaves the engine as
    it was.  After any call the engine is initialized, so every later
    call is of the second kind. *)
Theorem initialize_once (e : Engine) (replies : list string) :
  initialized CO456Protocol_init = false
  ∧ (initialized e = false →
       initialize e replies
       = mkExchange (Returned ()) (mkEngine true (first_move e) (sent e))
                    replies [])
  ∧ (initialized e = true →
       initialize e replies
       = mkExchange (Raised (EngineError "engine already initialized"))
                    e replies [])
  ∧ initialized (engine_after (initialize e replies)) = true.
Proof.
  split; [done|].
  destruct e as [[|] fm snt], replies; repeat split; done.
Qed.

(** *** [configure] *)

Lemma ConfigureCommand_quiet options line st :
  sent (line_received (ConfigureCommand options) line st).2.1 = sent st.1.
Proof.
  destruct st as [e c]. simpl.
  unfold ConfigureCommand_line_received, HookM.bind. simpl.
  by destruct (result c).
Qed.

Lemma configure_start options e color :
  initialized e = true →
  options !! "color" = Some (CStr color) →
  command_start (ConfigureCommand options) (e, new_command)
  = (Ok (), (write_line e color,
             if decide (color = "black")
             then mkCommand (Some (Ok ())) true
             else new_command)).
Proof.
  intros Hi Hc. eapply command_start_ok.
  - by apply check_initialized_ready.
  - simpl. unfold ConfigureCommand_start. rewrite Hc.
    destruct (decide (color = "black")) as [->|Hne].
    + done.
    + rewrite decide_False by congruence. done.
Qed.



(** *** [play] *)

Lemma PlayCommand_quiet board line st :
  sent (line_received (PlayCommand board) line st).2.1 = sent st.1.
Proof.
  destruct st as [e c]. simpl.
  unfold PlayCommand_line_received, HookM.bind, Move_from_uci.
  destruct (decide (line = "invalid")).
  - destruct (legal_moves board); simpl; [done|]. by destruct (result c).
  - destruct (from_uci line); simpl; [|done]. by destruct (result c).
Qed.

(** With no first move stored and a move on the stack, [start] writes
    the last move and leaves the command waiting. *)
Lemma play_start_request board e m ms :
  initialized e = true →
  first_move e = "" →
  move_stack board = ms ++ [m] →
  command_start (PlayCommand board) (e, new_command)
  = (Ok (), (write_line e (uci m), new_command)).
Proof.
  intros Hi Hf Hs. eapply command_start_ok.
  - by apply check_initialized_ready.
  - simpl. unfold PlayCommand_start, HookM.bind, HookM.get_engine. simpl.
    by rewrite Hf, Hs, truthy_list_snoc, last_item_snoc.
Qed.

(** With no first move stored, [start] leaves the command waiting,
    whatever the move stack is. *)
Lemma play_start_waits board e :
  initialized e = true →
  first_move e = "" →
  ∃ e', command_start (PlayCommand board) (e, new_command)
        = (Ok (), (e', new_command)).
Proof.
  intros Hi Hf.
  destruct (move_stack board) as [|m0 ms0] eqn:Hs using rev_ind.
  - exists e. eapply command_start_ok.
    + by apply check_initialized_ready.
    + simpl. unfold PlayCommand_start, HookM.bind, HookM.get_engine.
      simpl. by rewrite Hf, Hs.
  - eexists. by eapply play_start_request.
Qed.

(** With a first move stored that parses, [start] returns it, clears the
    store and finishes, writing nothing. *)
Lemma play_start_stored board e mv :
  initialized e = true →
  first_move e ≠ "" →
  from_uci (first_move e) = Some mv →
  command_start (PlayCommand board) (e, new_command)
  = (Ok (), (mkEngine (initialized e) "" (sent e),
             mkCommand (Some (Ok (play_move mv))) true)).
Proof.
  intros Hi Hf Hp. eapply command_start_ok.
  - by apply check_initialized_ready.
  - simpl. unfold PlayCommand_start, HookM.bind, HookM.get_engine, Move_from_uci.
    simpl. by rewrite (truthy_str_nonempty _ Hf), Hp.
Qed.

Lemma play_line_move board e line mv :
  line ≠ "invalid" →
  from_uci line = Some mv →
  command_line_received (PlayCommand board) line (e, new_command)
  = (Ok (), (e, mkCommand (Some (Ok (play_move mv))) true)).
Proof.
  intros Hne Hp. apply command_line_received_ok. simpl.
  unfold PlayCommand_line_received, HookM.bind, Move_from_uci.
  by rewrite decide_False, Hp by done.
Qed.

Lemma play_line_resign board e mv lm :
  legal_moves board = mv :: lm →
  command_line_received (PlayCommand board) "invalid" (e, new_command)
  = (Ok (), (e, mkCommand (Some (Ok (play_resign mv))) true)).
Proof.
  intros Hl. apply command_line_received_ok. simpl.
  unfold PlayCommand_line_received, HookM.bind.
  by rewrite decide_True, Hl by done.
Qed.

Lemma play_start_idle board e :
  initialized e = true →
  first_move e = "" →
  move_stack board = [] →
  command_start (PlayCommand board) (e, new_command)
  = (Ok (), (e, new_command)).
Proof.
  intros Hi Hf Hs. eapply command_start_ok.
  - by apply check_initialized_ready.
  - simpl. unfold PlayCommand_start, HookM.bind, HookM.get_engine. simpl.
    by rewrite Hf, Hs.
Qed.

(** C1. On an initialized engine: when no first move is stored and the
    move stack is not empty, [play] writes the last move of the stack to
    the child as one line and waits; with no reply it stays waiting; the
    first reply ends it, read as a resignation when it is ["invalid"] (and
    the board has a legal move) and as a UCI move otherwise (when it
    parses); later replies are left unread.  When a first move is stored
    and parses, [play] returns it without writing or reading a line.  When
    nothing is stored and the move stack is empty, nothing is written. *)
Theorem play_sends_last_move (board : Board Move) (e : Engine) :
  initialized e = true →
  (∀ m ms,
     first_move e = "" →
     move_stack board = ms ++ [m] →
     play board e [] = mkExchange Pending (write_line e (uci m)) [] []
     ∧ (∀ line rest mv,
          line ≠ "invalid" → from_uci line = Some mv →
          play board e (line :: rest)
          = mkExchange (Returned (play_move mv)) (write_line e (uci m))
                       rest [])
     ∧ (∀ rest mv lm,
          legal_moves board = mv :: lm →
          play board e ("invalid" :: rest)
          = mkExchange (Returned (play_resign mv)) (write_line e (uci m))
                       rest []))
  ∧ (∀ mv replies,
       first_move e ≠ "" →
       from_uci (first_move e) = Some mv →
       play board e replies
       = mkExchange (Returned (play_move mv))
                    (mkEngine (initialized e) "" (sent e)) replies [])
  ∧ (∀ replies,
       first_move e = "" →
       move_stack board = [] →
       sent (engine_after (play board e replies)) = sent e).
Proof.
  intros Hi. split; [|split].
  - intros m ms Hf Hs. unfold play, communicate.
    rewrite (play_start_request board e m ms Hi Hf Hs).
    split; [done|]. split.
    + intros line rest mv Hne Hp.
      erewrite feed_cons_ok; [|done|by apply play_line_move].
      by rewrite feed_finished.
    + intros rest mv lm Hl.
      erewrite feed_cons_ok; [|done|by eapply play_line_resign].
      by rewrite feed_finished.
  - intros mv replies Hf Hp. unfold play, communicate.
    rewrite (play_start_stored board e mv Hi Hf Hp).
    by rewrite feed_finished.
  - intros replies Hf Hs. unfold play, communicate.
    rewrite (play_start_idle board e Hi Hf Hs).
    rewrite feed_sent; [done|]. apply PlayCommand_quiet.
Qed.

(** C2. In a [play] exchange that waits for the child (initialized
    engine, no first move stored), the reply ["invalid"] on a board with a
    legal move makes [play] return a [PlayResult] with [resigned] set,
    carrying the first legal move; any other reply that parses as a UCI
    move makes it return a [PlayResult] with that move. *)
Theorem play_reply (board : Board Move) (e : Engine) (line : string)
    (rest : list string) :
  initialized e = true →
  first_move e = "" →
  (line = "invalid" → ∀ mv lm, legal_moves board = mv :: lm →
     ∃ r, outcome (play board e (line :: rest)) = Returned r
        ∧ pr_resigned r = true ∧ pr_move r = Some mv)
  ∧ (line ≠ "invalid" → ∀ mv, from_uci line = Some mv →
     ∃ r, outcome (play board e (line :: rest)) = Returned r
        ∧ pr_resigned r = false ∧ pr_move r = Some mv).
Proof.
  intros Hi Hf.
  destruct (play_start_waits board e Hi Hf) as [e' He'].
  unfold play, communicate. rewrite He'. split.
  - intros -> mv lm Hl. exists (play_resign mv).
    erewrite feed_cons_ok; [|done|by eapply play_line_resign].
    by rewrite feed_finished.
  - intros Hne mv Hp. exists (play_move mv).
    erewrite feed_cons_ok; [|done|by apply play_line_move].
    by rewrite feed_finished.
Qed.


(** C8. When [configure] is called on an initialized engine with color
    ["white"] and the child replies with a line, the call returns and the
    line is stored in [first_move], whatever it is.  When the line is not
    empty and parses as a UCI move, the next [play] returns a [PlayResult]
    with that move, resets [first_move] to the empty string, writes
    nothing to the child and reads none of its replies. *)
Theorem configure_white_then_play (options : gmap string ConfigValue)
    (board : Board Move) (e : Engine) (line : string)
    (rest replies : list string) :
  initialized e = true →
  options !! "color" = Some (CStr "white") →
  let c := configure options e (line :: rest) in
  outcome c = Returned ()
  ∧ first_move (engine_after c) = line
  ∧ (line ≠ "" →
     ∀ mv, from_uci line = Some mv →
       let p := play board (engine_after c) replies in
       outcome p = Returned (play_move mv)
       ∧ first_move (engine_after p) = ""
       ∧ sent (engine_after p) = sent (engine_after c)
       ∧ unread p = replies).
Proof.
  intros Hi Hc.
  assert (configure options e (line :: rest)
          = mkExchange (Returned ())
              (mkEngine (initialized e) line (sent e ++ ["white"])) rest [])
    as Hconf.
  { unfold configure, communicate.
    rewrite (configure_start options e "white" Hi Hc).
    rewrite decide_False by done.
    erewrite feed_cons_ok; [|done|by apply command_line_received_ok].
    by rewrite feed_finished. }
  intros c. subst c. rewrite Hconf. simpl.
  split; [done|]. split; [done|]. intros Hne mv Hp.
  unfold play, communicate.
  rewrite (play_start_stored board _ mv) by done.
  by rewrite feed_finished.
Qed.

(** C9. On a board without legal moves, [RandomMove.search],
    [Alphabetical.search] and [FirstMove.search] raise [IndexError], and
    the branch of [PlayCommand.line_received] for ["invalid"] raises
    [StopIteration] and sets no result: none of them returns a
    [PlayResult]. *)
Theorem search_needs_legal_move (board : Board Move) (r : nat)
    (st : Engine * Command (PlayResult Move)) :
  legal_moves board = [] →
  RandomMove_search r board
    = Raise (IndexError "Cannot choose from an empty sequence")
  ∧ Alphabetical_search board
    = Raise (IndexError "list index out of range")
  ∧ FirstMove_search uci board
    = Raise (IndexError "list index out of range")
  ∧ PlayCommand_line_received from_uci board "invalid" st
    = (Raise StopIteration, st)
  ∧ command_line_received (PlayCommand board) "invalid" st
    = (Raise StopIteration, st).
Proof.
  intros Hl.
  unfold RandomMove_search, Alphabetical_search, FirstMove_search,
    command_line_received, catch_EngineError.
  simpl. unfold PlayCommand_line_received, HookM.bind.
  rewrite Hl. by rewrite decide_True by done.
Qed.

(** A reply that is neither ["invalid"] nor a UCI move: [line_received]
    raises, no result is set, and the caller keeps waiting. *)
Lemma play_rejected_reply board e m ms line :
  initialized e = true →
  first_move e = "" →
  move_stack board = ms ++ [m] →
  line ≠ "invalid" →
  from_uci line = None →
  play board e [line]
  = mkExchange Pending (write_line e (uci m)) [] [ValueError].
Proof.
  intros Hi Hf Hs Hne Hp. unfold play, communicate.
  rewrite (play_start_request board e m ms Hi Hf Hs).
  rewrite (feed_cons_raise _ _ (write_line e (uci m), new_command)
             line [] [] ValueError); [by rewrite feed_nil|done|].
  unfold command_line_received, catch_EngineError. simpl.
  unfold PlayCommand_line_received, HookM.bind, Move_from_uci.
  by rewrite decide_False, Hp by done.
Qed.

End CO456Facts.

(** ** FillerEngine *)

Section FillerFacts.

Context {E Arg Ret ClassAttr : Type}.
Variable notify : E → string → list Arg → list (string * Arg) → Ret.
Variable class_attr : string → option ClassAttr.
Variable call_class_attr :
  ClassAttr → list Arg → list (string * Arg) → Res Ret.

(** [__init__] stores exactly three attributes on the instance. *)
Lemma FillerEngine_init_dom (main : E) (name : option string) :
  dom (instance_dict (FillerEngine_init main name))
  = ({["id"; "name"; "main_engine"]} : gset string).
Proof. unfold FillerEngine_init. simpl. set_solver. Qed.

Lemma FillerEngine_init_lookup_other (main : E) (name : option string)
    (attr : string) :
  attr ≠ "id" → attr ≠ "name" → attr ≠ "main_engine" →
  instance_dict (FillerEngine_init main name) !! attr = None.
Proof.
  intros H1 H2 H3. unfold FillerEngine_init. simpl.
  by rewrite !lookup_insert_ne, lookup_empty by done.
Qed.

(** An attribute found neither on the instance nor on the class is
    answered by [__getattr__]. *)
Lemma getattr_missing (self : FillerEngine E) (attr : string) :
  instance_dict self !! attr = None →
  class_attr attr = None →
  getattr class_attr self attr = Method (main_engine self) attr.
Proof. intros Hi Hc. unfold getattr. by rewrite Hi, Hc. Qed.

(** An attribute found on the instance is returned as stored, and is not
    callable. *)
Lemma getattr_stored (self : FillerEngine E) (attr : string)
    (v : InstanceValue E) args kwargs :
  instance_dict self !! attr = Some v →
  call notify call_class_attr (getattr class_attr self attr) args kwargs
  = Raise TypeError.
Proof. intros Hi. unfold getattr. by rewrite Hi. Qed.

(** C7. For every attribute name that the normal lookup does not find
    (any name but [id], [name] and [main_engine], and not a name of the
    class), and for all arguments, accessing the attribute on a
    [FillerEngine] and calling it is the call of [main_engine.notify]
    with that name and those arguments: the proxy and delegation agree. *)
Theorem FillerEngine_forwards (main : E) (name : option string)
    (attr : string) (args : list Arg) (kwargs : list (string * Arg)) :
  attr ≠ "id" → attr ≠ "name" → attr ≠ "main_engine" →
  class_attr attr = None →
  call notify call_class_attr
       (getattr class_attr (FillerEngine_init main name) attr) args kwargs
  = delegate notify (FillerEngine_init main name) attr args kwargs
  ∧ delegate notify (FillerEngine_init main name) attr args kwargs
    = Ok (notify main attr args kwargs).
Proof.
  intros H1 H2 H3 Hc.
  rewrite getattr_missing;
    [done|by apply FillerEngine_init_lookup_other|done].
Qed.

End FillerFacts.

(** ** The model on concrete positions *)

Module Runs.

Import Sample.

Abbreviation play := (play from_uci uci).
Abbreviation notify := (MinimalEngine_notify (E := unit) (Arg := unit)).

(** Capital letters sort before small ones: of e4, Nf3 and a3 the knight
    move comes first by notation, the pawn move a2a3 by UCI text. *)
Example Alphabetical_board3 :
  Alphabetical_search board3 = Ok (play_move g1f3).
Proof. reflexivity. Qed.

Example FirstMove_board3 :
  FirstMove_search uci board3 = Ok (play_move a2a3).
Proof. reflexivity. Qed.

Lemma Alphabetical_search_first_witness :
  legal_moves board3 ≠ []
  ∧ ∃ m, Alphabetical_search board3 = Ok (play_move m)
      ∧ m ∈ legal_moves board3
      ∧ (∀ x, x ∈ legal_moves board3 →
           String.le (san board3 m) (san board3 x))
      ∧ ∃ l1 l2, legal_moves board3 = l1 ++ m :: l2
          ∧ ∀ x, x ∈ l1 → san board3 x ≠ san board3 m.
Proof.
  assert (legal_moves board3 ≠ []) as H by discriminate.
  exact (conj H (Alphabetical_search_first board3 H)).
Defined.


Lemma initialize_once_witness :
  initialize CO456Protocol_init []
  = mkExchange (Returned ()) (mkEngine true "" []) [] []
  ∧ initialize ready ["e2e4"]
    = mkExchange (Raised (EngineError "engine already initialized"))
                 ready ["e2e4"] [].
Proof.
  split.
  - apply (initialize_once CO456Protocol_init []). reflexivity.
  - apply (initialize_once ready ["e2e4"]). reflexivity.
Defined.

Lemma play_sends_last_move_witness :
  play board3 ready [] = mkExchange Pending (write_line ready "e7e5") [] []
  ∧ play board3 ready ["g8f6"; "zz"]
    = mkExchange (Returned (play_move (mkMove 62 45 None None)))
                 (write_line ready "e7e5") ["zz"] []
  ∧ play board3 ready ["invalid"; "zz"]
    = mkExchange (Returned (play_resign e2e4))
                 (write_line ready "e7e5") ["zz"] []
  ∧ play board3 holding ["g8f6"]
    = mkExchange (Returned (play_move e2e4)) (mkEngine true "" ["white"])
                 ["g8f6"] []
  ∧ sent (engine_after (play board_start ready ["zz"])) = [].
Proof.
  destruct (play_sends_last_move from_uci uci board3 ready eq_refl)
    as (HA & _ & _).
  destruct (HA e7e5 [] eq_refl eq_refl) as (H1 & H2 & H3).
  destruct (play_sends_last_move from_uci uci board3 holding eq_refl)
    as (_ & HB & _).
  destruct (play_sends_last_move from_uci uci board_start ready eq_refl)
    as (_ & _ & HC).
  split; [exact H1|]. split; [|split; [|split]].
  - apply H2; [discriminate|reflexivity].
  - eapply H3. reflexivity.
  - apply (HB e2e4 ["g8f6"]); [discriminate|reflexivity].
  - apply (HC ["zz"]); reflexivity.
Defined.

Lemma play_reply_witness :
  (∃ r, outcome (play board3 ready ["invalid"]) = Returned r
      ∧ pr_resigned r = true ∧ pr_move r = Some e2e4)
  ∧ (∃ r, outcome (play board3 ready ["g1f3"]) = Returned r
      ∧ pr_resigned r = false ∧ pr_move r = Some g1f3).
Proof.
  split.
  - eapply (play_reply from_uci uci board3 ready "invalid" []);
      reflexivity.
  - eapply (play_reply from_uci uci board3 ready "g1f3" []);
      [reflexivity|reflexivity|discriminate|reflexivity].
Defined.


Lemma configure_white_then_play_witness :
  let c := configure white ready ["e2e4"] in
  let p := play board3 (engine_after c) ["g8f6"] in
  outcome c = Returned ()
  ∧ first_move (engine_after c) = "e2e4"
  ∧ outcome p = Returned (play_move e2e4)
  ∧ first_move (engine_after p) = ""
  ∧ sent (engine_after p) = sent (engine_after c)
  ∧ unread p = ["g8f6"].
Proof.
  destruct (configure_white_then_play from_uci uci white board3 ready
              "e2e4" [] ["g8f6"] eq_refl eq_refl) as (H1 & H2 & H3).
  split; [exact H1|]. split; [exact H2|].
  apply H3; [discriminate|reflexivity].
Defined.

Lemma search_needs_legal_move_witness :
  legal_moves board_over = []
  ∧ RandomMove_search 5 board_over
    = Raise (IndexError "Cannot choose from an empty sequence")
  ∧ Alphabetical_search board_over
    = Raise (IndexError "list index out of range")
  ∧ FirstMove_search uci board_over
    = Raise (IndexError "list index out of range")
  ∧ PlayCommand_line_received from_uci board_over "invalid"
      (ready, new_command)
    = (Raise StopIteration, (ready, new_command)).
Proof.
  pose proof (search_needs_legal_move from_uci uci board_over 5
                (ready, new_command) eq_refl) as (H1 & H2 & H3 & H4 & _).
  exact (conj eq_refl (conj H1 (conj H2 (conj H3 H4)))).
Defined.

Lemma FillerEngine_forwards_witness :
  call notify call_no_class_attr
       (getattr no_class_attr filler "ping") [()] []
  = Ok (notify () "ping" [()] []).
Proof.
  destruct (FillerEngine_forwards notify no_class_attr
              call_no_class_attr () (Some "homemade") "ping" [()] [])
    as [H1 H2]; [discriminate|discriminate|discriminate|reflexivity|].
  exact (eq_trans H1 H2).
Defined.

(** A stored first move: [play] writes nothing and reads nothing.  An
    empty move stack: nothing is written either, and [play] waits. *)
Lemma play_without_request :
  play board3 holding ["g8f6"]
  = mkExchange (Returned (play_move e2e4)) (mkEngine true "" ["white"])
               ["g8f6"] []
  ∧ play board_start ready [] = mkExchange Pending ready [] [].
Proof. split; reflexivity. Qed.



(** ["invalid"] on a board without legal moves: no [PlayResult]. *)
Lemma play_invalid_no_legal_move :
  play board_over ready ["invalid"]
  = mkExchange Pending (write_line ready "e7e5") [] [StopIteration]
  ∧ ∀ r, outcome (play board_over ready ["invalid"]) ≠ Returned r.
Proof. split; [reflexivity|discriminate]. Qed.

(** White's reply is the empty line: it is stored, and the next [play]
    finds nothing stored; it writes the last move and waits. *)
Lemma configure_white_empty_reply :
  let c := configure white ready [""] in
  let p := play board3 (engine_after c) [] in
  outcome c = Returned ()
  ∧ first_move (engine_after c) = ""
  ∧ outcome p = Pending
  ∧ sent (engine_after p) = sent (engine_after c) ++ ["e7e5"].
Proof. repeat split; reflexivity. Qed.

(** [name] is found on the instance: the access does not reach
    [__getattr__], and calling the value is not a call of [notify]. *)
Lemma FillerEngine_name_not_forwarded :
  getattr no_class_attr filler "name" = Stored (VOptStr (Some "homemade"))
  ∧ call notify call_no_class_attr
         (getattr no_class_attr filler "name") [] []
    = Raise TypeError
  ∧ call notify call_no_class_attr
         (getattr no_class_attr filler "name") [] []
    ≠ delegate notify filler "name" [] [].
Proof. split; [reflexivity|]. split; [reflexivity|discriminate]. Qed.

End Runs.


(** * Further properties *)

(** ** The strategies pick legal moves *)

Section StrategyMore.

Context {Move : Type}.

Lemma random_choice_lookup (r : nat) (l : list Move) (m : Move) :
  Py.random_choice r l = Ok m → l !! (r mod length l) = Some m.
Proof.
  destruct l as [|x l']; [done|]. unfold Py.random_choice.
  intros Hc.
  assert (nth (r mod length (x :: l')) (x :: l') x = m) as Hm by congruence.
  rewrite nth_lookup in Hm.
  destruct (lookup_lt_is_Some_2 (x :: l') (r mod length (x :: l'))) as [y Hy].
  { apply Nat.mod_upper_bound. done. }
  rewrite Hy in Hm. simpl in Hm. by rewrite Hy, Hm.
Qed.

(** X1. On a board with a legal move, [RandomMove.search] returns a plain
    [PlayResult] (no ponder move, no draw offer, no resignation) whose
    move is the legal move at the drawn position; and every legal move is
    returned for some draw. *)
Theorem RandomMove_search_legal (board : Board Move) (r : nat) :
  legal_moves board ≠ [] →
  (∃ m, RandomMove_search r board = Ok (play_move m)
      ∧ legal_moves board !! (r mod length (legal_moves board)) = Some m
      ∧ m ∈ legal_moves board)
  ∧ (∀ m, m ∈ legal_moves board →
       ∃ r', RandomMove_search r' board = Ok (play_move m)).
Proof.
  intros Hl. unfold RandomMove_search. split.
  - destruct (Py.random_choice r (legal_moves board)) as [m|ex] eqn:Hc.
    + exists m. split; [done|].
      apply random_choice_lookup in Hc. split; [done|].
      by eapply list_elem_of_lookup_2.
    + by destruct (legal_moves board).
  - intros m [i Hi]%list_elem_of_lookup. exists i.
    destruct (legal_moves board) as [|x l'] eqn:Hlm; [done|].
    unfold Py.random_choice. rewrite nth_lookup.
    rewrite Nat.mod_small by (by eapply lookup_lt_Some).
    by rewrite Hi.
Qed.

(** X2. On a board with a legal move, [FirstMove.search] returns a
    [PlayResult] whose move is a legal move with the least UCI text in
    lexicographic order, the first such move in the list. *)
Theorem FirstMove_search_first (uci : Move → string) (board : Board Move) :
  legal_moves board ≠ [] →
  ∃ m, FirstMove_search uci board = Ok (play_move m)
    ∧ m ∈ legal_moves board
    ∧ (∀ x, x ∈ legal_moves board → String.le (uci m) (uci x))
    ∧ ∃ l1 l2, legal_moves board = l1 ++ m :: l2
        ∧ ∀ x, x ∈ l1 → uci x ≠ uci m.
Proof.
  intros Hl.
  destruct (search_sorted_first uci _ Hl) as (m & Hm & Hrest).
  exists m. unfold FirstMove_search. by rewrite Hm.
Qed.

Lemma sorted_first_Ok_iff (key : Move → string) (l : list Move) :
  (∃ m, Py.index0 (Py.sort_key key l) = Ok m) ↔ l ≠ [].
Proof.
  split.
  - intros [m Hm] ->. done.
  - intros Hl. destruct (search_sorted_first key l Hl) as (m & Hm & _).
    by exists m.
Qed.

(** X3. Each of the three strategies returns a result exactly when the
    board has a legal move, and what it returns is a legal move with no
    ponder move, no draw offer and no resignation. *)
Theorem strategies_return_legal_moves {Limit : Type} (uci : Move → string)
    (cls : EngineClass) (r : nat) (board : Board Move) (time_limit : Limit)
    (ponder draw_offered : bool) :
  cls = RandomMove ∨ cls = Alphabetical ∨ cls = FirstMove →
  ((∃ res, search uci cls r board time_limit ponder draw_offered = Ok res)
   ↔ legal_moves board ≠ [])
  ∧ (∀ res, search uci cls r board time_limit ponder draw_offered = Ok res →
       ∃ m, m ∈ legal_moves board ∧ res = play_move m).
Proof.
  intros Hcls. split.
  - destruct Hcls as [->|[->| ->]]; simpl.
    + unfold RandomMove_search. destruct (legal_moves board); simpl.
      * split; [by intros [? ?]|done].
      * split; [done|]. intros _. by eexists.
    + unfold Alphabetical_search.
      rewrite <- (sorted_first_Ok_iff (san board)).
      destruct (Py.index0 _); split; intros [x Hx]; try done; by eexists.
    + unfold FirstMove_search. rewrite <- (sorted_first_Ok_iff uci).
      destruct (Py.index0 _); split; intros [x Hx]; try done; by eexists.
  - intros res Hres.
    assert (legal_moves board ≠ []) as Hl.
    { intros Hl. destruct Hcls as [->|[->| ->]]; simpl in Hres;
        unfold RandomMove_search, Alphabetical_search, FirstMove_search in Hres;
        by rewrite Hl in Hres. }
    destruct Hcls as [->|[->| ->]]; simpl in Hres.
    + destruct (RandomMove_search_legal board r Hl) as [(m & Hm & _ & Hin) _].
      exists m. split; [done|]. congruence.
    + destruct (search_sorted_first (san board) _ Hl) as (m & Hm & Hin & _).
      exists m. split; [done|].
      unfold Alphabetical_search in Hres. rewrite Hm in Hres. congruence.
    + destruct (search_sorted_first uci _ Hl) as (m & Hm & Hin & _).
      exists m. split; [done|].
      unfold FirstMove_search in Hres. rewrite Hm in Hres. congruence.
Qed.

Lemma NoDup_fmap_inj_on (key : Move → string) (l : list Move) (x y : Move) :
  NoDup (key <$> l) → x ∈ l → y ∈ l → key x = key y → x = y.
Proof.
  induction l as [|a l IH]; simpl; intros Hnd Hx Hy Hk.
  - by apply elem_of_nil in Hx.
  - apply NoDup_cons in Hnd as [Ha Hnd].
    apply elem_of_cons in Hx as [->|Hx]; apply elem_of_cons in Hy as [->|Hy].
    + done.
    + exfalso. apply Ha. rewrite Hk. by apply list_elem_of_fmap_2.
    + exfalso. apply Ha. rewrite <- Hk. by apply list_elem_of_fmap_2.
    + by apply IH.
Qed.

(** When no two elements share a key, the first element after sorting
    does not depend on the order the list came in. *)
Lemma sorted_first_perm (key : Move → string) (l1 l2 : list Move) :
  l1 ≡ₚ l2 →
  NoDup (key <$> l1) →
  Py.index0 (Py.sort_key key l1) = Py.index0 (Py.sort_key key l2).
Proof.
  intros Hp Hnd. destruct l1 as [|a l1'] eqn:Hl1.
  { symmetry in Hp. apply Permutation_nil_r in Hp. by subst. }
  rewrite <- Hl1 in *.
  assert (l1 ≠ []) as Hne1 by (by rewrite Hl1).
  assert (l2 ≠ []) as Hne2.
  { intros ->. apply Permutation_nil_r in Hp. done. }
  destruct (search_sorted_first key l1 Hne1) as (m1 & Hm1 & Hin1 & Hmin1 & _).
  destruct (search_sorted_first key l2 Hne2) as (m2 & Hm2 & Hin2 & Hmin2 & _).
  rewrite Hm1, Hm2. f_equal.
  apply (NoDup_fmap_inj_on key l1); [done|done|by rewrite Hp|].
  apply (anti_symm String.le).
  - apply Hmin1. by rewrite Hp.
  - apply Hmin2. by rewrite <- Hp.
Qed.

Lemma sort_key_ext (k1 k2 : Move → string) (l : list Move) :
  (∀ x, k1 x = k2 x) → Py.sort_key k1 l = Py.sort_key k2 l.
Proof.
  intros Hk. induction l as [|a l IH]; simpl; [done|].
  rewrite IH. generalize (Py.sort_key k2 l). intros s.
  induction s as [|y s IHs]; simpl; [done|].
  by rewrite !Hk, IHs.
Qed.

(** X4. When the legal moves have pairwise different notations, the move
    [Alphabetical.search] returns does not depend on the order in which
    the board lists its legal moves; the same holds for
    [FirstMove.search] and the UCI texts. *)
Theorem sorted_strategies_ignore_order (uci : Move → string)
    (b1 b2 : Board Move) :
  legal_moves b1 ≡ₚ legal_moves b2 →
  (NoDup (san b1 <$> legal_moves b1) →
   (∀ m, san b1 m = san b2 m) →
   Alphabetical_search b1 = Alphabetical_search b2)
  ∧ (NoDup (uci <$> legal_moves b1) →
     FirstMove_search uci b1 = FirstMove_search uci b2).
Proof.
  intros Hp. split.
  - intros Hnd Hsan. unfold Alphabetical_search.
    rewrite <- (sort_key_ext (san b1) (san b2) _ Hsan).
    by rewrite (sorted_first_perm (san b1) _ _ Hp Hnd).
  - intros Hnd. unfold FirstMove_search.
    by rewrite (sorted_first_perm uci _ _ Hp Hnd).
Qed.

End StrategyMore.

(** ** Invariants of an exchange *)

Section FeedMore.

Context {R : Type} (cls : CommandClass R).

Lemma feed_engine_invariant (P : Engine → Prop) :
  (∀ line st, P st.1 → P (line_received cls line st).2.1) →
  ∀ lines st esc, P st.1 → P (engine_after (feed cls st lines esc)).
Proof.
  intros Hstep.
  assert (∀ line st, P st.1 → P (command_line_received cls line st).2.1)
    as Hstep'.
  { intros line st HP. unfold command_line_received, catch_EngineError.
    specialize (Hstep line st HP).
    destruct (line_received cls line st) as [[u|ex] [e c]]; [done|].
    destruct ex; done. }
  induction lines as [|line rest IH]; intros st esc HP; simpl.
  - by destruct (finished st.2).
  - destruct (finished st.2); simpl; [done|].
    specialize (Hstep' line st HP).
    destruct (command_line_received cls line st) as [[u|ex] st'];
      by apply IH.
Qed.

Lemma communicate_engine_invariant (P : Engine → Prop) e replies :
  (∀ line st, P st.1 → P (line_received cls line st).2.1) →
  P (command_start cls (e, new_command)).2.1 →
  P (engine_after (communicate cls e replies)).
Proof.
  intros Hstep Hstart. unfold communicate.
  destruct (command_start cls (e, new_command)) as [[u|ex] st]; simpl;
    [by apply feed_engine_invariant|done].
Qed.

End FeedMore.

(** ** More on [configure] *)

Section ConfigureMore.

Lemma configure_start_cases options e :
  initialized e = true →
  command_start (ConfigureCommand options) (e, new_command)
  = match options !! "color" with
    | Some (CStr c) =>
        (Ok (), (write_line e c,
                 if decide (c = "black")
                 then mkCommand (Some (Ok ())) true
                 else new_command))
    | Some _ => (Raise TypeError, (e, new_command))
    | None => (Ok (), (e, new_command))
    end.
Proof.
  intros Hi. destruct (options !! "color") as [[c| | |]|] eqn:Hc.
  - by apply configure_start.
  - unfold command_start, catch_EngineError, HookM.bind. simpl.
    rewrite (check_initialized_ready e new_command Hi).
    unfold ConfigureCommand_start. by rewrite Hc.
  - unfold command_start, catch_EngineError, HookM.bind. simpl.
    rewrite (check_initialized_ready e new_command Hi).
    unfold ConfigureCommand_start. by rewrite Hc.
  - unfold command_start, catch_EngineError, HookM.bind. simpl.
    rewrite (check_initialized_ready e new_command Hi).
    unfold ConfigureCommand_start. by rewrite Hc.
  - eapply command_start_ok; [by apply check_initialized_ready|].
    simpl. unfold ConfigureCommand_start. by rewrite Hc.
Qed.

Lemma configure_start_uninit options e :
  initialized e = false →
  command_start (ConfigureCommand options) (e, new_command)
  = (Ok (), (e, mkCommand
       (Some (Raise (EngineError
          "tried to run command, but engine is not initialized")))
       true)).
Proof.
  intros Hi. destruct e as [ini fm snt]. simpl in Hi. by subst.
Qed.

Lemma configure_line options e line :
  command_line_received (ConfigureCommand options) line (e, new_command)
  = (Ok (), (mkEngine (initialized e) line (sent e),
             mkCommand (Some (Ok ())) true)).
Proof. done. Qed.

(** X9. With color ["black"], [configure] on an initialized engine
    writes that one line and returns at once: no reply is read and the
    stored first move is not touched. *)
Theorem configure_black (options : gmap string ConfigValue) (e : Engine)
    (replies : list string) :
  initialized e = true →
  options !! "color" = Some (CStr "black") →
  configure options e replies
  = mkExchange (Returned ()) (write_line e "black") replies [].
Proof.
  intros Hi Hc. unfold configure, communicate.
  rewrite (configure_start_cases options e Hi), Hc.
  rewrite decide_True by done. by rewrite feed_finished.
Qed.

(** X10. With no ["color"] key, or with a color string other than
    ["black"], [configure] on an initialized engine waits for the child:
    without a reply it does not return, and the first reply, whatever it
    is, ends it and becomes the stored first move; later replies are left
    unread.  Without the key nothing is written. *)
Theorem configure_waits_and_stores (options : gmap string ConfigValue)
    (e : Engine) :
  initialized e = true →
  (options !! "color" = None
   ∨ ∃ c, options !! "color" = Some (CStr c) ∧ c ≠ "black") →
  outcome (configure options e []) = Pending
  ∧ ∀ line rest,
      outcome (configure options e (line :: rest)) = Returned ()
      ∧ first_move (engine_after (configure options e (line :: rest))) = line
      ∧ unread (configure options e (line :: rest)) = rest
      ∧ (options !! "color" = None →
         sent (engine_after (configure options e (line :: rest))) = sent e).
Proof.
  intros Hi Hc. unfold configure, communicate.
  rewrite (configure_start_cases options e Hi).
  destruct Hc as [Hc|(c & Hc & Hne)]; rewrite Hc.
  - split; [done|]. intros line rest.
    erewrite feed_cons_ok; [|done|apply configure_line].
    by rewrite feed_finished.
  - rewrite decide_False by done. split; [done|]. intros line rest.
    erewrite feed_cons_ok; [|done|apply configure_line].
    rewrite feed_finished by done. by repeat split.
Qed.

End ConfigureMore.

(** ** More on CO456Protocol *)

Section CO456More.

Context {Move : Type}.
Variable from_uci : string → option Move.
Variable uci : Move → string.

Abbreviation play := (play from_uci uci).
Abbreviation PlayCommand := (PlayCommand from_uci uci).

(** [PlayCommand.line_received] does not touch the engine. *)
Lemma PlayCommand_keeps_engine board line st :
  (line_received (PlayCommand board) line st).2.1 = st.1.
Proof.
  destruct st as [e c]. simpl.
  unfold PlayCommand_line_received, HookM.bind, Move_from_uci.
  destruct (decide (line = "invalid")).
  - destruct (legal_moves board); simpl; [done|]. by destruct (result c).
  - destruct (from_uci line); simpl; [|done]. by destruct (result c).
Qed.

Lemma play_feed_engine board lines st esc :
  engine_after (feed (PlayCommand board) st lines esc) = st.1.
Proof.
  apply (feed_engine_invariant (PlayCommand board) (λ e, e = st.1));
    [|done].
  intros line st' <-. apply PlayCommand_keeps_engine.
Qed.

(** The five ways [start] of a [play] command can go. *)
Lemma play_start_cases board e :
  let r := command_start (PlayCommand board) (e, new_command) in
  (initialized e = false
   ∧ r = (Ok (), (e, mkCommand
            (Some (Raise (EngineError
               "tried to run command, but engine is not initialized")))
            true)))
  ∨ (initialized e = true ∧ first_move e ≠ ""
     ∧ ∃ mv, from_uci (first_move e) = Some mv
         ∧ r = (Ok (), (mkEngine true "" (sent e),
                        mkCommand (Some (Ok (play_move mv))) true)))
  ∨ (initialized e = true ∧ first_move e ≠ ""
     ∧ from_uci (first_move e) = None
     ∧ r = (Raise ValueError, (e, new_command)))
  ∨ (initialized e = true ∧ first_move e = ""
     ∧ ∃ m ms, move_stack board = ms ++ [m]
         ∧ r = (Ok (), (write_line e (uci m), new_command)))
  ∨ (initialized e = true ∧ first_move e = "" ∧ move_stack board = []
     ∧ r = (Ok (), (e, new_command))).
Proof.
  intros r. subst r. destruct (initialized e) eqn:Hi.
  2:{ left. split; [done|]. destruct e as [ini fm snt]. simpl in Hi. by subst. }
  right. destruct (decide (first_move e = "")) as [Hf|Hf].
  - right. right. destruct (move_stack board) as [|m ms _] eqn:Hs using rev_ind.
    + right. repeat split; [done|].
      eapply command_start_ok; [by apply check_initialized_ready|].
      simpl. unfold PlayCommand_start, HookM.bind, HookM.get_engine. simpl.
      by rewrite Hf, Hs.
    + left. split; [done|]. split; [done|]. exists m, ms. split; [done|].
      by eapply play_start_request.
  - destruct (from_uci (first_move e)) as [mv|] eqn:Hp.
    + left. split; [done|]. split; [done|]. exists mv. split; [done|].
      rewrite (play_start_stored from_uci uci board e mv Hi Hf Hp).
      by rewrite Hi.
    + right. left. repeat split; [done..|].
      unfold command_start, catch_EngineError, HookM.bind. simpl.
      rewrite (check_initialized_ready e new_command Hi).
      unfold PlayCommand_start, HookM.bind, HookM.get_engine, Move_from_uci.
      simpl. by rewrite (truthy_str_nonempty _ Hf), Hp.
Qed.

(** X5. A stored first move that is not a UCI move: [play] raises
    [ValueError] to its caller before anything is written or read, and
    the stored text is not reset. *)
Theorem play_stored_unparsable (board : Board Move) (e : Engine)
    (replies : list string) :
  initialized e = true →
  first_move e ≠ "" →
  from_uci (first_move e) = None →
  outcome (play board e replies) = Raised ValueError
  ∧ sent (engine_after (play board e replies)) = sent e
  ∧ first_move (engine_after (play board e replies)) = first_move e
  ∧ unread (play board e replies) = replies.
Proof.
  intros Hi Hf Hp. unfold play, communicate.
  destruct (play_start_cases board e)
    as [[? _]|[(_ & _ & mv & ? & _)|[(_ & _ & _ & ->)|[(_ & ? & _)|(_ & ? & _)]]]];
    try congruence.
  done.
Qed.

(** X6. Nothing stored and an empty move stack: [play] writes nothing to
    the child, which it still waits for; the first reply is read as in
    any other exchange. *)
Theorem play_nothing_to_send (board : Board Move) (e : Engine) :
  initialized e = true →
  first_move e = "" →
  move_stack board = [] →
  play board e [] = mkExchange Pending e [] []
  ∧ (∀ line rest mv,
       line ≠ "invalid" → from_uci line = Some mv →
       play board e (line :: rest)
       = mkExchange (Returned (play_move mv)) e rest [])
  ∧ (∀ rest mv lm,
       legal_moves board = mv :: lm →
       play board e ("invalid" :: rest)
       = mkExchange (Returned (play_resign mv)) e rest []).
Proof.
  intros Hi Hf Hs. unfold play, communicate.
  assert (command_start (PlayCommand board) (e, new_command)
          = (Ok (), (e, new_command))) as ->.
  { destruct (play_start_cases board e)
      as [[? _]|[(_ & ? & _)|[(_ & ? & _)|[(_ & _ & m & ms & Hs' & _)|(_ & _ & _ & ->)]]]];
      try congruence.
    rewrite Hs in Hs'. by destruct ms. }
  split; [done|]. split.
  - intros line rest mv Hne Hp.
    erewrite feed_cons_ok; [|done|by apply play_line_move].
    by rewrite feed_finished.
  - intros rest mv lm Hl.
    erewrite feed_cons_ok; [|done|by eapply play_line_resign].
    by rewrite feed_finished.
Qed.

(** X7. Whenever [play] returns a result, no first move is stored
    afterwards: a stored move is handed out once. *)
Theorem play_consumes_first_move (board : Board Move) (e : Engine)
    (replies : list string) (r : PlayResult Move) :
  outcome (play board e replies) = Returned r →
  first_move (engine_after (play board e replies)) = "".
Proof.
  unfold play, communicate.
  destruct (play_start_cases board e)
    as [[_ ->]|[(_ & _ & mv & _ & ->)|[(_ & _ & _ & ->)|
        [(_ & Hf & m & ms & _ & ->)|(_ & Hf & _ & ->)]]]].
  - by rewrite feed_finished.
  - by rewrite feed_finished.
  - done.
  - intros _. by rewrite play_feed_engine.
  - intros _. by rewrite play_feed_engine.
Qed.

(** What the replies can make of a waiting [play] command. *)
Lemma play_feed_result board lines :
  ∀ e esc r,
    outcome (feed (PlayCommand board) (e, new_command) lines esc) = Returned r →
    (∃ m lm, legal_moves board = m :: lm ∧ r = play_resign m
           ∧ "invalid" ∈ lines)
    ∨ (∃ line m, line ∈ lines ∧ line ≠ "invalid"
               ∧ from_uci line = Some m ∧ r = play_move m).
Proof.
  induction lines as [|line rest IH]; intros e esc r; [done|].
  destruct (decide (line = "invalid")) as [->|Hne].
  - destruct (legal_moves board) as [|m lm] eqn:Hl.
    + rewrite (feed_cons_raise _ _ (e, new_command) _ _ _ StopIteration);
        [|done|].
      * intros [(m & lm & ? & ? & ?)|(l & m & ? & ? & ? & ?)]%IH.
        -- left. exists m, lm. repeat split; [done..|]. by right.
        -- right. exists l, m. repeat split; [by right|done..].
      * unfold command_line_received, catch_EngineError. simpl.
        unfold PlayCommand_line_received, HookM.bind.
        by rewrite decide_True, Hl by done.
    + erewrite feed_cons_ok; [|done|by eapply play_line_resign].
      rewrite feed_finished by done. simpl. intros [= <-].
      left. exists m, lm. repeat split. by left.
  - destruct (from_uci line) as [m|] eqn:Hp.
    + erewrite feed_cons_ok; [|done|by apply play_line_move].
      rewrite feed_finished by done. simpl. intros [= <-].
      right. exists line, m. repeat split; [by left|done..].
    + rewrite (feed_cons_raise _ _ (e, new_command) _ _ _ ValueError);
        [|done|].
      * intros [(m & lm & ? & ? & ?)|(l & m & ? & ? & ? & ?)]%IH.
        -- left. exists m, lm. repeat split; [done..|]. by right.
        -- right. exists l, m. repeat split; [by right|done..].
      * unfold command_line_received, catch_EngineError. simpl.
        unfold PlayCommand_line_received, HookM.bind, Move_from_uci.
        by rewrite decide_False, Hp by done.
Qed.

(** X8. A result of [play] never carries a ponder move or a draw offer.
    It is a resignation only when the child replied ["invalid"], and then
    it carries the first legal move; otherwise its move is the parse of
    the stored first move or of one of the replies. *)
Theorem play_result_provenance (board : Board Move) (e : Engine)
    (replies : list string) (r : PlayResult Move) :
  outcome (play board e replies) = Returned r →
  pr_ponder r = None ∧ pr_draw_offered r = false
  ∧ ((pr_resigned r = true ∧ "invalid" ∈ replies
      ∧ ∃ m lm, legal_moves board = m :: lm ∧ r = play_resign m)
     ∨ (pr_resigned r = false
        ∧ ∃ line m, (line = first_move e ∨ line ∈ replies)
            ∧ from_uci line = Some m ∧ r = play_move m)).
Proof.
  unfold play, communicate.
  assert (∀ e',
    outcome (feed (PlayCommand board) (e', new_command) replies []) = Returned r →
    pr_ponder r = None ∧ pr_draw_offered r = false
    ∧ ((pr_resigned r = true ∧ "invalid" ∈ replies
        ∧ ∃ m lm, legal_moves board = m :: lm ∧ r = play_resign m)
       ∨ (pr_resigned r = false
          ∧ ∃ line m, (line = first_move e ∨ line ∈ replies)
              ∧ from_uci line = Some m ∧ r = play_move m))) as Hfeed.
  { intros e' [(m & lm & Hl & -> & Hin)|(l & m & Hin & _ & Hp & ->)]%play_feed_result.
    - repeat split. left. repeat split; [done|]. by exists m, lm.
    - repeat split. right. split; [done|]. exists l, m. auto. }
  destruct (play_start_cases board e)
    as [[_ ->]|[(_ & _ & mv & Hp & ->)|[(_ & _ & _ & ->)|
        [(_ & _ & m & ms & _ & ->)|(_ & _ & _ & ->)]]]].
  - by rewrite feed_finished.
  - rewrite feed_finished by done. simpl. intros [= <-].
    repeat split. right. split; [done|]. exists (first_move e), mv. auto.
  - done.
  - apply Hfeed.
  - apply Hfeed.
Qed.

(** X11. No exchange clears the [initialized] flag: after [initialize],
    [configure] or [play] on an initialized engine the engine is still
    initialized, whatever the child replies. *)
Theorem initialized_is_kept (e : Engine) (replies : list string) :
  initialized e = true →
  initialized (engine_after (initialize e replies)) = true
  ∧ (∀ options,
       initialized (engine_after (configure options e replies)) = true)
  ∧ (∀ board,
       initialized (engine_after (play board e replies)) = true).
Proof.
  intros Hi. split; [|split].
  - destruct e as [ini fm snt], replies; simpl in Hi; by subst.
  - intros options. unfold configure.
    apply (communicate_engine_invariant _ (λ x, initialized x = true)).
    + intros line [x c] Hx. simpl in *.
      unfold ConfigureCommand_line_received, HookM.bind. simpl.
      by destruct (result c).
    + rewrite (configure_start_cases options e Hi).
      destruct (options !! "color") as [[c| | |]|]; done.
  - intros board. unfold play.
    apply (communicate_engine_invariant _ (λ x, initialized x = true)).
    + intros line st Hx. by rewrite PlayCommand_keeps_engine.
    + destruct (play_start_cases board e)
        as [[_ ->]|[(_ & _ & mv & _ & ->)|[(_ & _ & _ & ->)|
            [(_ & _ & m & ms & _ & ->)|(_ & _ & _ & ->)]]]]; done.
Qed.

(** X12. The log of lines written to the child only grows, and by at
    most one line per exchange: [initialize] writes nothing, [configure]
    and [play] write at most one line each, on any engine and whatever
    the child replies. *)
Theorem at_most_one_line_written (e : Engine) (replies : list string) :
  sent (engine_after (initialize e replies)) = sent e
  ∧ (∀ options, ∃ extra,
       sent (engine_after (configure options e replies)) = sent e ++ extra
       ∧ length extra ≤ 1)
  ∧ (∀ board, ∃ extra,
       sent (engine_after (play board e replies)) = sent e ++ extra
       ∧ length extra ≤ 1).
Proof.
  split; [|split].
  - by destruct e as [[|] fm snt], replies.
  - intros options. unfold configure, communicate.
    destruct (initialized e) eqn:Hi.
    + rewrite (configure_start_cases options e Hi).
      destruct (options !! "color") as [[c| | |]|]; cbv beta iota.
      * exists [c]. split; [|done].
        rewrite feed_sent; [done|]. apply ConfigureCommand_quiet.
      * exists []. rewrite app_nil_r. split; [done|simpl; lia].
      * exists []. rewrite app_nil_r. split; [done|simpl; lia].
      * exists []. rewrite app_nil_r. split; [done|simpl; lia].
      * exists []. rewrite app_nil_r. split; [|simpl; lia].
        rewrite feed_sent; [done|]. apply ConfigureCommand_quiet.
    + rewrite (configure_start_uninit options e Hi).
      exists []. rewrite app_nil_r, feed_finished by done. split; [done|simpl; lia].
  - intros board. unfold play, communicate.
    destruct (play_start_cases board e)
      as [[_ ->]|[(_ & _ & mv & _ & ->)|[(_ & _ & _ & ->)|
          [(_ & _ & m & ms & _ & ->)|(_ & _ & _ & ->)]]]].
    + exists []. rewrite app_nil_r, feed_finished by done. split; [done|simpl; lia].
    + exists []. rewrite app_nil_r, feed_finished by done. split; [done|simpl; lia].
    + exists []. rewrite app_nil_r. split; [done|simpl; lia].
    + exists [uci m]. rewrite play_feed_engine. split; [done|simpl; lia].
    + exists []. rewrite app_nil_r, play_feed_engine. split; [done|simpl; lia].
Qed.

End CO456More.

(** ** CO456Engine: the opening of a game *)

Section CO456EngineFacts.

Context {Move Limit : Type}.
Variable from_uci : string → option Move.
Variable uci : Move → string.

Lemma play_request_reply (board : Board Move) e m ms line rest mv :
  initialized e = true →
  first_move e = "" →
  move_stack board = ms ++ [m] →
  line ≠ "invalid" →
  from_uci line = Some mv →
  play from_uci uci board e (line :: rest)
  = mkExchange (Returned (play_move mv)) (write_line e (uci m)) rest [].
Proof.
  intros Hi Hf Hs Hne Hp. unfold play, communicate.
  rewrite (play_start_request from_uci uci board e m ms Hi Hf Hs).
  erewrite feed_cons_ok; [|done|by apply play_line_move].
  by rewrite feed_finished.
Qed.

Lemma play_stored_returns (board : Board Move) e replies mv :
  initialized e = true →
  first_move e ≠ "" →
  from_uci (first_move e) = Some mv →
  play from_uci uci board e replies
  = mkExchange (Returned (play_move mv))
               (mkEngine (initialized e) "" (sent e)) replies [].
Proof.
  intros Hi Hf Hp. unfold play, communicate.
  rewrite (play_start_stored from_uci uci board e mv Hi Hf Hp).
  by rewrite feed_finished.
Qed.

(** X13. A game with the black pieces, from the construction of the
    wrapper: [get_opponent_info] writes ["black"] and reads nothing, and
    the first [search] writes the opponent's move and returns the child's
    reply as the move to play.  The child has then been sent exactly
    ["black"] and that move; its later lines are still unread. *)
Theorem black_game_opening (board : Board Move) (time_limit : Limit)
    (ponder draw_offered : bool) (m : Move) (ms : list Move)
    (line : string) (rest : list string) (mv : Move) :
  move_stack board = ms ++ [m] →
  line ≠ "invalid" →
  from_uci line = Some mv →
  let i := CO456Engine_init (line :: rest) in
  let c := get_opponent_info false (engine_after i) (unread i) in
  let p := CO456Engine_search from_uci uci board time_limit ponder
             draw_offered (engine_after c) (unread c) in
  outcome i = Returned ()
  ∧ outcome c = Returned ()
  ∧ unread c = line :: rest
  ∧ outcome p = Returned (play_move mv)
  ∧ sent (engine_after p) = ["black"; uci m]
  ∧ unread p = rest.
Proof.
  intros Hs Hne Hp i c p.
  assert (c = mkExchange (Returned ()) (mkEngine true "" ["black"])
                         (line :: rest) []) as Hc by done.
  subst p. rewrite Hc. unfold CO456Engine_search. simpl.
  rewrite (play_request_reply board (mkEngine true "" ["black"]) m ms
             line rest mv) by done.
  done.
Qed.

(** X14. A game with the white pieces, from the construction of the
    wrapper: [get_opponent_info] writes ["white"] and takes the child's
    first line; the first [search] returns that line as a move without
    writing or reading; the second [search] writes the opponent's move
    and returns the child's next line.  The child has then been sent
    exactly ["white"] and the opponent's move. *)
Theorem white_game_opening (board1 board2 : Board Move)
    (time_limit : Limit) (ponder draw_offered : bool)
    (m : Move) (ms : list Move) (line1 line2 : string)
    (rest : list string) (mv1 mv2 : Move) :
  line1 ≠ "" →
  from_uci line1 = Some mv1 →
  move_stack board2 = ms ++ [m] →
  line2 ≠ "invalid" →
  from_uci line2 = Some mv2 →
  let i := CO456Engine_init (line1 :: line2 :: rest) in
  let c := get_opponent_info true (engine_after i) (unread i) in
  let p1 := CO456Engine_search from_uci uci board1 time_limit ponder
              draw_offered (engine_after c) (unread c) in
  let p2 := CO456Engine_search from_uci uci board2 time_limit ponder
              draw_offered (engine_after p1) (unread p1) in
  outcome c = Returned ()
  ∧ outcome p1 = Returned (play_move mv1)
  ∧ sent (engine_after p1) = ["white"]
  ∧ unread p1 = line2 :: rest
  ∧ outcome p2 = Returned (play_move mv2)
  ∧ sent (engine_after p2) = ["white"; uci m]
  ∧ unread p2 = rest.
Proof.
  intros Hne1 Hp1 Hs Hne2 Hp2 i c p1 p2.
  assert (c = mkExchange (Returned ()) (mkEngine true line1 ["white"])
                         (line2 :: rest) []) as Hc by done.
  assert (p1 = mkExchange (Returned (play_move mv1))
                          (mkEngine true "" ["white"]) (line2 :: rest) [])
    as Hp1'.
  { subst p1. rewrite Hc. unfold CO456Engine_search. simpl.
    by rewrite (play_stored_returns board1 (mkEngine true line1 ["white"])
                  (line2 :: rest) mv1) by done. }
  subst p2. rewrite Hp1', Hc. unfold CO456Engine_search. simpl.
  rewrite (play_request_reply board2 (mkEngine true "" ["white"]) m ms
             line2 rest mv2) by done.
  done.
Qed.

End CO456EngineFacts.


(** ** The further properties on concrete positions *)

Module MoreRuns.

Import Sample.

Abbreviation play := (play from_uci uci).

Lemma RandomMove_search_legal_witness :
  legal_moves board3 ≠ []
  ∧ (∃ m, RandomMove_search 7 board3 = Ok (play_move m)
       ∧ legal_moves board3 !! (7 mod length (legal_moves board3)) = Some m
       ∧ m ∈ legal_moves board3)
  ∧ (∀ m, m ∈ legal_moves board3 →
       ∃ r', RandomMove_search r' board3 = Ok (play_move m)).
Proof.
  assert (legal_moves board3 ≠ []) as H by discriminate.
  exact (conj H (RandomMove_search_legal board3 7 H)).
Defined.

Lemma FirstMove_search_first_witness :
  legal_moves board3 ≠ []
  ∧ ∃ m, FirstMove_search uci board3 = Ok (play_move m)
      ∧ m ∈ legal_moves board3
      ∧ (∀ x, x ∈ legal_moves board3 → String.le (uci m) (uci x))
      ∧ ∃ l1 l2, legal_moves board3 = l1 ++ m :: l2
          ∧ ∀ x, x ∈ l1 → uci x ≠ uci m.
Proof.
  assert (legal_moves board3 ≠ []) as H by discriminate.
  exact (conj H (FirstMove_search_first uci board3 H)).
Defined.

Lemma strategies_return_legal_moves_witness :
  ((∃ res, search uci Alphabetical 0 board3 () false false = Ok res)
   ↔ legal_moves board3 ≠ [])
  ∧ (∀ res, search uci Alphabetical 0 board3 () false false = Ok res →
       ∃ m, m ∈ legal_moves board3 ∧ res = play_move m).
Proof.
  apply (strategies_return_legal_moves uci Alphabetical 0 board3 ()
           false false).
  right. left. reflexivity.
Defined.

Lemma sorted_strategies_ignore_order_witness :
  Alphabetical_search board3 = Alphabetical_search board3_reordered
  ∧ FirstMove_search uci board3 = FirstMove_search uci board3_reordered.
Proof.
  assert (legal_moves board3 ≡ₚ legal_moves board3_reordered) as Hp.
  { simpl. symmetry. apply (Permutation_cons_append [e2e4; g1f3] a2a3). }
  destruct (sorted_strategies_ignore_order uci board3 board3_reordered Hp)
    as [H1 H2].
  split.
  - apply H1; [|reflexivity].
    exact (bool_decide_unpack
             (NoDup (san board3 <$> legal_moves board3)) I).
  - apply H2.
    exact (bool_decide_unpack (NoDup (uci <$> legal_moves board3)) I).
Defined.

Lemma play_stored_unparsable_witness :
  outcome (play board3 stuck ["g8f6"]) = Raised ValueError
  ∧ sent (engine_after (play board3 stuck ["g8f6"])) = ["white"]
  ∧ first_move (engine_after (play board3 stuck ["g8f6"])) = "zz"
  ∧ unread (play board3 stuck ["g8f6"]) = ["g8f6"].
Proof.
  apply (play_stored_unparsable from_uci uci board3 stuck ["g8f6"]);
    [reflexivity|discriminate|reflexivity].
Defined.

Lemma play_nothing_to_send_witness :
  play board_start ready [] = mkExchange Pending ready [] []
  ∧ play board_start ready ["e2e4"; "zz"]
    = mkExchange (Returned (play_move e2e4)) ready ["zz"] [].
Proof.
  destruct (play_nothing_to_send from_uci uci board_start ready
              eq_refl eq_refl eq_refl) as (H1 & H2 & _).
  split; [exact H1|]. apply H2; [discriminate|reflexivity].
Defined.

Lemma play_consumes_first_move_witness :
  outcome (play board3 holding []) = Returned (play_move e2e4)
  ∧ first_move (engine_after (play board3 holding [])) = "".
Proof.
  assert (outcome (play board3 holding []) = Returned (play_move e2e4))
    as H by reflexivity.
  exact (conj H (play_consumes_first_move from_uci uci board3 holding []
                   (play_move e2e4) H)).
Defined.

Lemma play_result_provenance_witness :
  outcome (play board3 ready ["invalid"]) = Returned (play_resign e2e4)
  ∧ pr_ponder (play_resign e2e4) = None.
Proof.
  assert (outcome (play board3 ready ["invalid"])
          = Returned (play_resign e2e4)) as H by reflexivity.
  exact (conj H (proj1 (play_result_provenance from_uci uci board3 ready
                          ["invalid"] (play_resign e2e4) H))).
Defined.

Lemma configure_black_witness :
  configure black ready ["zz"]
  = mkExchange (Returned ()) (write_line ready "black") ["zz"] [].
Proof.
  apply (configure_black black ready ["zz"]); reflexivity.
Defined.

Lemma configure_waits_and_stores_witness :
  outcome (configure ∅ ready []) = Pending
  ∧ first_move (engine_after (configure ∅ ready ["e2e4"; "zz"])) = "e2e4".
Proof.
  destruct (configure_waits_and_stores ∅ ready eq_refl
              (or_introl (lookup_empty "color"))) as [H1 H2].
  split; [exact H1|]. exact (proj1 (proj2 (H2 "e2e4" ["zz"]))).
Defined.

Lemma initialized_is_kept_witness :
  initialized (engine_after (play board3 ready ["zz"; "invalid"])) = true.
Proof.
  exact (proj2 (proj2 (initialized_is_kept from_uci uci ready
                         ["zz"; "invalid"] eq_refl)) board3).
Defined.

Lemma black_game_opening_witness :
  let i := CO456Engine_init ["g8f6"; "zz"] in
  let c := get_opponent_info false (engine_after i) (unread i) in
  let p := CO456Engine_search from_uci uci board3 () false false
             (engine_after c) (unread c) in
  outcome i = Returned ()
  ∧ outcome c = Returned ()
  ∧ unread c = ["g8f6"; "zz"]
  ∧ outcome p = Returned (play_move (mkMove 62 45 None None))
  ∧ sent (engine_after p) = ["black"; "e7e5"]
  ∧ unread p = ["zz"].
Proof.
  apply (black_game_opening from_uci uci board3 () false false e7e5 []
           "g8f6" ["zz"] (mkMove 62 45 None None));
    [reflexivity|discriminate|reflexivity].
Defined.

Lemma white_game_opening_witness :
  let i := CO456Engine_init ["e2e4"; "g1f3"] in
  let c := get_opponent_info true (engine_after i) (unread i) in
  let p1 := CO456Engine_search from_uci uci board_start () false false
              (engine_after c) (unread c) in
  let p2 := CO456Engine_search from_uci uci board3 () false false
              (engine_after p1) (unread p1) in
  outcome c = Returned ()
  ∧ outcome p1 = Returned (play_move e2e4)
  ∧ sent (engine_after p1) = ["white"]
  ∧ unread p1 = ["g1f3"]
  ∧ outcome p2 = Returned (play_move g1f3)
  ∧ sent (engine_after p2) = ["white"; "e7e5"]
  ∧ unread p2 = [].
Proof.
  apply (white_game_opening from_uci uci board_start board3 () false false
           e7e5 [] "e2e4" "g1f3" [] e2e4 g1f3);
    [discriminate|reflexivity|reflexivity|discriminate|reflexivity].
Defined.

End MoreRuns.
